(** * MotionGAN: loss composition, pose sub-encoder wiring, scoping and
      quaternion helpers.

    Shallow embedding of
      - src/models/motiongan.py  ([_edm], [_MotionGAN._build_loss],
        [_proc_gen_inputs], [_proc_gen_outputs], the train/eval entry points),
      - src/utils/tfangles.py    ([vector3d_to_quaternion]),
      - src/utils/scoping.py     ([Scoping.name_scope]).

    Float tensors are modelled over the real numbers: a tensor of rank n is
    an n-fold nested list, read with a default of 0 and built by tabulating
    an index formula over the static shape, which is how the backend
    operations (sum over axes, broadcasting, expand_dims) are specified. *)

From Stdlib Require Import String Ascii.
From Stdlib Require DecimalString.
From Stdlib Require Import Reals Lra Lia List Bool Arith.
Import ListNotations.
Open Scope string_scope.
Open Scope list_scope.
Open Scope R_scope.

(** ** Tensors as nested lists *)

Definition tensor1 := list R.
Definition tensor2 := list tensor1.
Definition tensor3 := list tensor2.
Definition tensor4 := list tensor3.

Definition at1 (x : tensor1) (i : nat) : R := nth i x 0.
Definition at2 (x : tensor2) (i j : nat) : R := at1 (nth i x []) j.
Definition at3 (x : tensor3) (i j k : nat) : R := at2 (nth i x []) j k.

(** [tab n f] is the array [f 0; ...; f (n-1)]. *)
Definition tab {A : Type} (n : nat) (f : nat -> A) : list A :=
  map f (seq 0 n).

Definition Rsum (l : list R) : R := fold_right Rplus 0 l.

(** K.mean over one axis: the sum divided by the axis length. *)
Definition Rmean (l : list R) : R := Rsum l / INR (length l).

(** Static shape of a rank-3 array, read off its first entries. *)
Definition dim0 {A : Type} (x : list A) : nat := length x.
Definition dim1 {A : Type} (x : list (list A)) : nat := length (nth 0 x []).
Definition dim2 {A : Type} (x : list (list (list A))) : nat :=
  length (nth 0 (nth 0 x []) []).

(** An array is rectangular of shape (J,T,C). *)
Definition has_shape3 (J T C : nat) (x : tensor3) : Prop :=
  length x = J /\
  Forall (fun joint => length joint = T /\
                       Forall (fun fr => length fr = C) joint) x.

(** K.epsilon(), the backend fuzz factor (default 1e-07). *)
Definition K_epsilon : R := 1e-7.

(** ** The distance-matrix operator (motiongan.py, [_edm])

    For one sample [x] of shape (J,T,C): [x1 = expand_dims(x, 1)] and
    [x2 = expand_dims(x, 2)] (batch axis counted) broadcast to
    [(x1 - x2)[i][j][t][c] = x[j][t][c] - x[i][t][c]]; the square is summed
    over the last axis, epsilon is added, and the root is taken. *)
Definition edm_sample (x : tensor3) : tensor3 :=
  tab (dim0 x) (fun i => tab (dim0 x) (fun j => tab (dim1 x) (fun t =>
    sqrt (Rsum (tab (dim2 x) (fun c => Rsqr (at3 x j t c - at3 x i t c)))
          + K_epsilon)))).

Definition _edm (x : tensor4) : tensor4 := map edm_sample x.

(** ** Backend helpers used by the loss composer *)

Definition at4 (x : tensor4) (b i j k : nat) : R := at3 (nth b x []) i j k.

(** K.cast(K.not_equal(a, b), 'float32') *)
Definition K_not_equal (a b : R) : bool :=
  if Req_dec_T a b then false else true.

Definition K_cast (b : bool) : R := if b then 1 else 0.

(** Elementwise product [x * seq_mask] of a (J,T,C) sample with a (J,T,1)
    mask, the mask broadcast along the last axis. *)
Definition mul_mask (x mask : tensor3) : tensor3 :=
  tab (dim0 x) (fun j => tab (dim1 x) (fun t => tab (dim2 x) (fun c =>
    at3 x j t c * at3 mask j t 0))).

(** Elementwise product of two vectors of per-frame values. *)
Definition weighted (v w : tensor1) : tensor1 :=
  tab (length v) (fun t => at1 v t * at1 w t).

(** Sum of squares over every entry of a rank-3 array:
    K.sum(K.square(g), axis=(1, 2, 3)). *)
Definition sum_sq3 (g : tensor3) : R :=
  Rsum (tab (dim0 g) (fun j => Rsum (tab (dim1 g) (fun t =>
    Rsum (tab (dim2 g) (fun c => Rsqr (at3 g j t c))))))).

(** ** The critic as the loss composer sees it

    The discriminator network is a function of its input sample only (it
    holds no layer that mixes samples of a batch), so each of its output
    tensors, and the gradient of an output with respect to the input, is a
    function of the sample it is evaluated at. *)
Record Critic := {
  score_out : tensor3 -> tensor1;          (* Dense(1): shape (1,) *)
  label_out : tensor3 -> tensor1;          (* logits, shape (num_actions,) *)
  latent_cond_out : tensor3 -> tensor1;    (* shape (latent_cond_dim,) *)
  frame_score_out : tensor3 -> tensor2;    (* Conv1D(1): shape (T,1) *)
  score_grad : tensor3 -> tensor3;         (* K.gradients(score, [x]) *)
  frame_score_grad : tensor3 -> tensor3    (* K.gradients(frame_score, [x]) *)
}.

(** ** Configuration: the attributes [_MotionGAN.__init__] reads *)
Record Config := {
  data_set : string;
  batch_size : nat;
  njoints : nat;
  num_actions : nat;
  pick_num : nat;
  crop_len : nat;
  lambda_grads : R;
  action_cond : bool;
  latent_cond_dim : nat;
  coherence_loss : bool;
  displacement_loss : bool;
  shape_loss : bool;
  smoothing_loss : bool;
  time_pres_emb : bool;
  unfold_joints : bool;
  use_pose_vae : bool
}.

(** [self.seq_len]: pick_num if positive, else crop_len if positive, else
    None. *)
Definition seq_len (cfg : Config) : option nat :=
  if (0 <? pick_num cfg)%nat then Some (pick_num cfg)
  else if (0 <? crop_len cfg)%nat then Some (crop_len cfg) else None.

(** The scale constants fixed in [__init__]. *)
Definition gamma_grads : R := 1.
Definition rec_scale : R := 1.
Definition action_scale_d : R := 10.
Definition action_scale_g : R := 10.
Definition latent_scale_d : R := 1.
Definition latent_scale_g : R := 1.
Definition coherence_scale : R := 1 / 10.
Definition displacement_scale : R := 1 / 10.
Definition shape_scale : R := 1.
Definition smoothing_scale : R := 1 / 10.
Definition frame_scale : R := 10.

(** configs/base_config.py with the NTURGBD constants of config.py; the
    base file does not set [use_pose_vae]. *)
Definition base_config (pose_vae : bool) : Config := {|
  data_set := "NTURGBD";
  batch_size := 256; njoints := 25; num_actions := 60;
  pick_num := 20; crop_len := 0;
  lambda_grads := 10;
  action_cond := true; latent_cond_dim := 0;
  coherence_loss := true; displacement_loss := false;
  shape_loss := true; smoothing_loss := true;
  time_pres_emb := false; unfold_joints := false;
  use_pose_vae := pose_vae
|}.

(** ** Frame validity (motiongan.py lines 208-209) *)

(** [zero_sum = K.sum(real_seq, axis=(1, 3))]: per frame, the sum over
    joints and coordinates. *)
Definition zero_sum (real : tensor3) : tensor1 :=
  tab (dim1 real) (fun t =>
    Rsum (tab (dim0 real) (fun j =>
      Rsum (tab (dim2 real) (fun c => at3 real j t c))))).

(** [zero_frames = K.cast(K.not_equal(zero_sum, zeros_like(zero_sum)),
    'float32') + K.epsilon()] *)
Definition zero_frames (real : tensor3) : tensor1 :=
  map (fun s => K_cast (K_not_equal s 0) + K_epsilon) (zero_sum real).

(** ** Reconstruction losses (lines 249-252) *)

(** [K.sum(K.mean(K.square(real*mask - gen*mask), axis=-1), axis=1)]:
    one value per frame. *)
Definition rec_frames (real gen mask : tensor3) : tensor1 :=
  let rm := mul_mask real mask in
  let gm := mul_mask gen mask in
  tab (dim1 rm) (fun t =>
    Rsum (tab (dim0 rm) (fun j =>
      Rmean (tab (dim2 rm) (fun c => Rsqr (at3 rm j t c - at3 gm j t c)))))).

Definition loss_rec (real gen mask : tensor3) : R :=
  Rsum (weighted (rec_frames real gen mask) (zero_frames real)).

(** [K.sum(K.square(_edm(real*mask) - _edm(gen*mask)), axis=(1, 2))]:
    one value per frame. *)
Definition rec_edm_frames (real gen mask : tensor3) : tensor1 :=
  let er := edm_sample (mul_mask real mask) in
  let eg := edm_sample (mul_mask gen mask) in
  tab (dim2 er) (fun t =>
    Rsum (tab (dim0 er) (fun i =>
      Rsum (tab (dim1 er) (fun j => Rsqr (at3 er i j t - at3 eg i j t)))))).

Definition loss_rec_edm (real gen mask : tensor3) : R :=
  Rsum (weighted (rec_edm_frames real gen mask) (zero_frames real)).

(** ** Frame-level adversarial terms (lines 257-272) *)

(** [K.squeeze(frame_score_out, axis=-1)] *)
Definition squeeze_last (x : tensor2) : tensor1 :=
  tab (dim0 x) (fun t => at2 x t 0).

Definition frame_loss (D : Critic) (real x : tensor3) : R :=
  Rsum (weighted (squeeze_last (frame_score_out D x)) (zero_frames real)).

(** [K.sum(K.square(frame_grad_mixed), axis=(1, 3))]: one value per frame. *)
Definition grad_sq_frames (g : tensor3) : tensor1 :=
  tab (dim1 g) (fun t =>
    Rsum (tab (dim0 g) (fun j =>
      Rsum (tab (dim2 g) (fun c => Rsqr (at3 g j t c)))))).

Definition frame_norm_grad (D : Critic) (real inter : tensor3) : R :=
  sqrt (Rsum (weighted (grad_sq_frames (frame_score_grad D inter))
                       (zero_frames real))).

(** ** Interpolates and gradient penalty (lines 217-230) *)

(** [(alpha * real_seq) + ((1 - alpha) * gen_seq)] for one sample. *)
Definition interpolate (a : R) (real gen : tensor3) : tensor3 :=
  tab (dim0 real) (fun j => tab (dim1 real) (fun t =>
    tab (dim2 real) (fun c =>
      a * at3 real j t c + (1 - a) * at3 gen j t c))).

(** [alpha] has shape (batch_size, 1, 1, 1) and broadcasts over a sample. *)
Definition interpolates (alpha real gen : tensor4) : tensor4 :=
  tab (length real) (fun b =>
    interpolate (at4 alpha b 0 0 0) (nth b real []) (nth b gen [])).

Definition norm_grad_mixed (D : Critic) (inter : tensor4) : tensor1 :=
  map (fun x => sqrt (sum_sq3 (score_grad D x))) inter.

Definition penalty_of_norms (norms : tensor1) : R :=
  Rmean (map (fun n => Rsqr (n - gamma_grads) / gamma_grads ^ 2) norms).

Definition grad_penalty (D : Critic) (alpha real gen : tensor4) : R :=
  penalty_of_norms (norm_grad_mixed D (interpolates alpha real gen)).

(** [loss_real], [loss_fake]: K.mean(score_out, axis=-1), one per sample. *)
Definition loss_score (D : Critic) (x : tensor4) : tensor1 :=
  map (fun s => Rmean (score_out D s)) x.

(** [disc_loss_wgan = loss_fake - loss_real + lambda_grads * grad_penalty],
    the scalar penalty broadcast over the batch. *)
Definition disc_loss_wgan (cfg : Config) (D : Critic)
    (alpha real gen : tensor4) : tensor1 :=
  let lf := loss_score D gen in
  let lr := loss_score D real in
  tab (length lf) (fun b =>
    at1 lf b - at1 lr b + lambda_grads cfg * grad_penalty D alpha real gen).

Definition gen_loss_wgan (D : Critic) (gen : tensor4) : tensor1 :=
  map Ropp (loss_score D gen).

(** ** Conditional and structural losses (lines 276-316) *)

(** K.sparse_categorical_crossentropy(target, output, from_logits=True)
    for one sample: minus the log-softmax of the logits at the label. *)
Definition K_sparse_categorical_crossentropy
    (target : nat) (output : tensor1) : R :=
  ln (Rsum (map exp output)) - at1 output target.

Definition loss_class (D : Critic) (labels : list nat) (x : tensor4) : R :=
  Rmean (tab (length x) (fun b =>
    K_sparse_categorical_crossentropy (nth b labels 0%nat)
                                      (label_out D (nth b x [])))).

(** K.mean over every entry of a (N,L) array. *)
Definition mean_all2 (x : tensor2) : R :=
  Rsum (map Rsum x) / INR (dim0 x * dim1 x).

Definition loss_latent (D : Critic) (gen : tensor4) (latent : tensor2) : R :=
  mean_all2 (tab (length gen) (fun b =>
    let out := latent_cond_out D (nth b gen []) in
    tab (length out) (fun l => Rsqr (at1 out l - at2 latent b l)))).

(** np.linspace(start, stop, num)[t] *)
Definition np_linspace (start stop : R) (num t : nat) : R :=
  if (num =? 1)%nat then start
  else start + INR t * ((stop - start) / INR (num - 1)).

(** [exp_decay = 1.0 / np.exp(np.linspace(0.0, 2.0, self.seq_len))] *)
Definition exp_decay (T : nat) : tensor1 :=
  tab T (fun t => 1 / exp (np_linspace 0 2 T t)).

Definition loss_coh (decay : tensor1) (real gen : tensor3) : R :=
  let er := edm_sample real in
  let eg := edm_sample gen in
  Rsum (tab (dim0 er) (fun i => Rsum (tab (dim1 er) (fun j =>
    Rmean (tab (dim2 er) (fun t =>
      Rsqr (at3 er i j t - at3 eg i j t) * at1 decay t)))))).

(** [gen_seq[:, :, :-1, :]] against [gen_seq[:, :, 1:, :]]. *)
Definition loss_disp (gen : tensor3) : R :=
  Rsum (tab (dim0 gen) (fun j => Rsum (tab (dim1 gen - 1) (fun t =>
    Rmean (tab (dim2 gen) (fun c =>
      Rsqr (at3 gen j t c - at3 gen j (S t) c))))))).

(** np.ones((n, m)) *)
Definition np_ones (n m : nat) : tensor2 := tab n (fun _ => tab m (fun _ => 1)).

(** np.triu(m, k): entries with column - row >= k are kept, the others are
    zeroed. *)
Definition np_triu (m : tensor2) (k : nat) : tensor2 :=
  tab (dim0 m) (fun i => tab (dim1 m) (fun j =>
    if (i + k <=? j)%nat then at2 m i j else 0)).

(** [mask = np.triu(mask, 1) - np.triu(mask, 2)] on the all-ones
    (njoints, njoints) matrix. *)
Definition shape_mask (J : nat) : tensor2 :=
  let ones := np_ones J J in
  let a := np_triu ones 1 in
  let b := np_triu ones 2 in
  tab (dim0 a) (fun i => tab (dim1 a) (fun j => at2 a i j - at2 b i j)).

(** [real_shape = K.mean(_edm(real_seq), axis=-1, keepdims=True) * mask],
    shape (J,J,1). *)
Definition real_shape (mask : tensor2) (real : tensor3) : tensor3 :=
  let er := edm_sample real in
  tab (dim0 er) (fun i => tab (dim1 er) (fun j =>
    [Rmean (nth j (nth i er []) []) * at2 mask i j])).

(** [gen_shape = _edm(gen_seq) * mask], shape (J,J,T). *)
Definition gen_shape (mask : tensor2) (gen : tensor3) : tensor3 :=
  let eg := edm_sample gen in
  tab (dim0 eg) (fun i => tab (dim1 eg) (fun j => tab (dim2 eg) (fun t =>
    at3 eg i j t * at2 mask i j))).

(** The (i,j) summand of the shape loss:
    [K.mean(K.square(real_shape - gen_shape), axis=-1)[i][j]], the single
    entry of [real_shape] broadcast over the frames of [gen_shape]. *)
Definition shape_term (mask : tensor2) (real gen : tensor3) (i j : nat) : R :=
  let rs := real_shape mask real in
  let gs := gen_shape mask gen in
  Rmean (tab (dim2 gs) (fun t => Rsqr (at3 rs i j 0 - at3 gs i j t))).

(** [loss_shape = K.sum(K.mean(K.square(real_shape - gen_shape), axis=-1),
    axis=(1, 2))] for one sample. *)
Definition loss_shape (J : nat) (real gen : tensor3) : R :=
  let mask := shape_mask J in
  let gs := gen_shape mask gen in
  Rsum (tab (dim0 gs) (fun i => Rsum (tab (dim1 gs) (fun j =>
    shape_term mask real gen i j)))).

(** [K.dot(permute(gen_seq), Qs)] permuted back:
    [gen_seq_s[j][t'][c] = sum_t gen_seq[j][t][c] * Qs[t][t']]. *)
Definition smooth_seq (Qs : tensor2) (gen : tensor3) : tensor3 :=
  tab (dim0 gen) (fun j => tab (dim1 Qs) (fun t' => tab (dim2 gen) (fun c =>
    Rsum (tab (dim1 gen) (fun t => at3 gen j t c * at2 Qs t t'))))).

Definition loss_smooth (Qs : tensor2) (gen : tensor3) : R :=
  let gs := smooth_seq Qs gen in
  Rsum (tab (dim0 gs) (fun j => Rsum (tab (dim1 gs) (fun t =>
    Rmean (tab (dim2 gs) (fun c => Rsqr (at3 gs j t c - at3 gen j t c))))))).

(** ** Ordered dictionaries (collections.OrderedDict) *)

Definition odict (V : Type) := list (string * V).

(** [d[k] = v]: an existing key keeps its place, a new key goes last. *)
Fixpoint od_set {V : Type} (d : odict V) (k : string) (v : V) : odict V :=
  match d with
  | [] => [(k, v)]
  | (k', v') :: d' =>
      if String.eqb k' k then (k', v) :: d' else (k', v') :: od_set d' k v
  end.

Definition od_keys {V : Type} (d : odict V) : list string := map fst d.
Definition od_values {V : Type} (d : odict V) : list V := map snd d.

(** OrderedDict(pairs) *)
Definition OrderedDict {V : Type} (pairs : list (string * V)) : odict V :=
  fold_left (fun d kv => od_set d (fst kv) (snd kv)) pairs [].

(** ** The loss composer ([_MotionGAN._build_loss]) *)

(** What one evaluation of the loss graph is fed with: the batch, the
    generator's output on it, the sampled interpolation coefficients, the
    placeholders, the networks' regularisation losses, the constant
    smoothing projector [Qs = pinv(Q) . Q] and the encoder latent. *)
Record LossInputs := {
  real_seq : tensor4;
  seq_mask : tensor4;
  gen_seq : tensor4;
  alpha : tensor4;
  true_label : list nat;
  latent_cond_input : tensor2;
  disc_model_losses : list R;
  gen_model_losses : list R;
  smooth_Qs : tensor2;
  vae_z : tensor3
}.

(** A per-sample loss evaluated over the batch. *)
Definition over_batch (f : nat -> R) (batch : tensor4) : tensor1 :=
  tab (length batch) f.

Definition _build_loss (cfg : Config) (D : Critic) (inp : LossInputs)
    : odict R * odict R * odict R :=
  let wgan_losses : odict R := [] in
  let disc_losses : odict R := [] in
  let gen_losses : odict R := [] in
  let real := real_seq inp in
  let mask := seq_mask inp in
  let gen := gen_seq inp in
  let rl b := nth b real [] in
  let gn b := nth b gen [] in
  let mk b := nth b mask [] in
  (* WGAN basic losses *)
  let loss_real := loss_score D real in
  let loss_fake := loss_score D gen in
  let wgan_losses := od_set wgan_losses "loss_real" (Rmean loss_real) in
  let wgan_losses := od_set wgan_losses "loss_fake" (Rmean loss_fake) in
  (* WGAN-GP losses *)
  let disc_losses := od_set disc_losses "disc_loss_wgan"
        (Rmean (disc_loss_wgan cfg D (alpha inp) real gen)) in
  let gen_losses := od_set gen_losses "gen_loss_wgan"
        (Rmean (gen_loss_wgan D gen)) in
  (* Regularization losses *)
  let disc_losses :=
    if (0 <? length (disc_model_losses inp))%nat
    then od_set disc_losses "disc_loss_reg" (Rsum (disc_model_losses inp))
    else disc_losses in
  let gen_losses :=
    if (0 <? length (gen_model_losses inp))%nat
    then od_set gen_losses "gen_loss_reg" (Rsum (gen_model_losses inp))
    else gen_losses in
  (* Reconstruction loss *)
  let gen_losses := od_set gen_losses "gen_loss_rec"
        (rec_scale * Rmean (over_batch
           (fun b => loss_rec (rl b) (gn b) (mk b)) real)) in
  let gen_losses := od_set gen_losses "gen_loss_rec_edm"
        (1 / 10 * rec_scale * Rmean (over_batch
           (fun b => loss_rec_edm (rl b) (gn b) (mk b)) real)) in
  let inter := interpolates (alpha inp) real gen in
  let '(wgan_losses, disc_losses, gen_losses) :=
    if use_pose_vae cfg then
      let frame_loss_real := over_batch (fun b => frame_loss D (rl b) (rl b)) real in
      let frame_loss_fake := over_batch (fun b => frame_loss D (rl b) (gn b)) real in
      let wgan_losses :=
        od_set wgan_losses "frame_loss_real" (Rmean frame_loss_real) in
      let wgan_losses :=
        od_set wgan_losses "frame_loss_fake" (Rmean frame_loss_fake) in
      let frame_grad_penalty := penalty_of_norms (over_batch
            (fun b => frame_norm_grad D (rl b) (nth b inter [])) real) in
      let frame_disc_loss_wgan := over_batch (fun b =>
            at1 frame_loss_fake b - at1 frame_loss_real b
            + lambda_grads cfg * frame_grad_penalty) real in
      let disc_losses := od_set disc_losses "frame_disc_loss_wgan"
            (frame_scale * Rmean frame_disc_loss_wgan) in
      let gen_losses := od_set gen_losses "frame_gen_loss_wgan"
            (frame_scale * Rmean (map Ropp frame_loss_fake)) in
      (wgan_losses, disc_losses, gen_losses)
    else (wgan_losses, disc_losses, gen_losses) in
  (* Conditional losses *)
  let '(disc_losses, gen_losses) :=
    if action_cond cfg then
      let loss_class_real := loss_class D (true_label inp) real in
      let loss_class_fake := loss_class D (true_label inp) gen in
      (od_set disc_losses "disc_loss_action"
         (action_scale_d * (loss_class_real + loss_class_fake)),
       od_set gen_losses "gen_loss_action"
         (action_scale_g * loss_class_fake))
    else (disc_losses, gen_losses) in
  let '(disc_losses, gen_losses) :=
    if (0 <? latent_cond_dim cfg)%nat then
      let ll := loss_latent D gen (latent_cond_input inp) in
      (od_set disc_losses "disc_loss_latent" (latent_scale_d * ll),
       od_set gen_losses "gen_loss_latent" (latent_scale_g * ll))
    else (disc_losses, gen_losses) in
  let T := match seq_len cfg with Some t => t | None => 0%nat end in
  let gen_losses :=
    if coherence_loss cfg then
      od_set gen_losses "gen_loss_coh"
        (coherence_scale * Rmean (over_batch
           (fun b => loss_coh (exp_decay T) (rl b) (gn b)) real))
    else gen_losses in
  let gen_losses :=
    if displacement_loss cfg then
      od_set gen_losses "gen_loss_disp"
        (displacement_scale * Rmean (over_batch
           (fun b => loss_disp (gn b)) gen))
    else gen_losses in
  let gen_losses :=
    if shape_loss cfg then
      od_set gen_losses "gen_loss_shape"
        (shape_scale * Rmean (over_batch
           (fun b => loss_shape (njoints cfg) (rl b) (gn b)) real))
    else gen_losses in
  let gen_losses :=
    if smoothing_loss cfg then
      od_set gen_losses "gen_loss_smooth"
        (smoothing_scale * Rmean (over_batch
           (fun b => loss_smooth (smooth_Qs inp) (gn b)) gen))
    else gen_losses in
  (wgan_losses, disc_losses, gen_losses).

Definition wgan_losses_of (cfg : Config) (D : Critic) (inp : LossInputs) :=
  fst (fst (_build_loss cfg D inp)).
Definition disc_losses_of (cfg : Config) (D : Critic) (inp : LossInputs) :=
  snd (fst (_build_loss cfg D inp)).
Definition gen_losses_of (cfg : Config) (D : Critic) (inp : LossInputs) :=
  snd (_build_loss cfg D inp).

(** ** Train and eval entry points (lines 163-192)

    [disc_train_f], [disc_eval_f], [gen_train_f] and [gen_eval_f] fetch the
    listed loss tensors (the train functions also apply the optimizer's
    updates to the weights, which the fetched values do not show). *)

(** What [gen_eval_f] fetches: scalars, the encoder latent, the generated
    batch. *)
Inductive fetch :=
| FScalar (v : R)
| FLatent (z : tensor3)
| FSeq (x : tensor4).

Definition disc_train_f (cfg : Config) (D : Critic) (inp : LossInputs)
    : list R :=
  od_values (wgan_losses_of cfg D inp) ++ od_values (disc_losses_of cfg D inp).

Definition disc_eval_f := disc_train_f.

Definition gen_train_f (cfg : Config) (D : Critic) (inp : LossInputs)
    : list R :=
  od_values (gen_losses_of cfg D inp).

Definition gen_eval_f (cfg : Config) (D : Critic) (inp : LossInputs)
    : list fetch :=
  let gen_f_outs := map FScalar (od_values (gen_losses_of cfg D inp)) in
  let gen_f_outs :=
    if use_pose_vae cfg then gen_f_outs ++ [FLatent (vae_z inp)]
    else gen_f_outs in
  gen_f_outs ++ [FSeq (gen_seq inp)].

(** ['train/%s' % key] and ['val/%s' % key] *)
Definition train_key (key : string) : string := ("train/" ++ key)%string.
Definition val_key (key : string) : string := ("val/" ++ key)%string.

Definition disc_train (cfg : Config) (D : Critic) (inp : LossInputs)
    : odict R :=
  let train_outs := disc_train_f cfg D inp in
  let keys := od_keys (wgan_losses_of cfg D inp)
              ++ od_keys (disc_losses_of cfg D inp) in
  let keys := map train_key keys in
  OrderedDict (combine keys train_outs).

Definition disc_eval (cfg : Config) (D : Critic) (inp : LossInputs)
    : odict R :=
  let eval_outs := disc_eval_f cfg D inp in
  let keys := od_keys (wgan_losses_of cfg D inp)
              ++ od_keys (disc_losses_of cfg D inp) in
  let keys := map val_key keys in
  OrderedDict (combine keys eval_outs).

Definition gen_train (cfg : Config) (D : Critic) (inp : LossInputs)
    : odict R :=
  let train_outs := gen_train_f cfg D inp in
  let keys := od_keys (gen_losses_of cfg D inp) in
  let keys := map train_key keys in
  OrderedDict (combine keys train_outs).

Definition gen_eval (cfg : Config) (D : Critic) (inp : LossInputs)
    : odict fetch :=
  let eval_outs := gen_eval_f cfg D inp in
  let keys := od_keys (gen_losses_of cfg D inp) in
  let keys := map val_key keys in
  let keys := if use_pose_vae cfg then keys ++ ["vae_z"%string] else keys in
  let keys := keys ++ ["gen_outputs"%string] in
  OrderedDict (combine keys eval_outs).

(** ** The layer graph of the generator's input and output stages

    Keras code builds a graph of named layers; the embedding builds the same
    graph as a term.  Shapes leave the batch axis out. *)

Inductive activation := Relu | Sigmoid.

Inductive ktensor :=
| KInput (name : string) (shape : list nat)
    (* Input(batch_shape=..., name=...) *)
| KExternal (name : string) (shape : list nat) (x : ktensor)
    (* a sub-network built elsewhere (the architecture's generator) *)
| KMultiply (name : string) (a b : ktensor)
| KAdd (name : string) (a b : ktensor)
| KConcatenate (name : string) (a b : ktensor)
    (* Concatenate over the last axis (the default, and axis=-1) *)
| KPermute (dims : list nat) (name : string) (x : ktensor)
| KReshape (target : list nat) (name : string) (x : ktensor)
| KConv1D (filters kernel strides : nat) (act : option activation)
          (name : string) (x : ktensor)
| KConv2D (filters kernel : nat) (strides : nat * nat)
          (name : string) (x : ktensor)
| KActivation (act : activation) (name : string) (x : ktensor)
| KInstanceNormalization (name : string) (x : ktensor)
| KGate (name : string) (h pi tau : ktensor)
    (* Lambda(lambda args: args[0]*(1 - args[2]) + args[1]*args[2]) *)
| KMeanPool (name : string) (x : ktensor)
    (* Lambda(lambda x: K.mean(x, axis=(1, 2))) *)
| KUnfoldJoints (data_set : string) (out_joints : nat) (x : ktensor)
| KFoldJoints (data_set : string) (out_joints : nat) (x : ktensor).

(** The name of the layer that produced a tensor. *)
Definition kname (t : ktensor) : string :=
  match t with
  | KInput n _ | KExternal n _ _ | KMultiply n _ _ | KAdd n _ _
  | KConcatenate n _ _ | KPermute _ n _ | KReshape _ n _
  | KConv1D _ _ _ _ n _ | KConv2D _ _ _ n _ | KActivation _ n _
  | KInstanceNormalization n _ | KGate n _ _ _ | KMeanPool n _ => n
  | KUnfoldJoints _ _ _ => "unfold_joints"
  | KFoldJoints _ _ _ => "fold_joints"
  end.

(** [name in s] for Python strings. *)
Fixpoint str_contains (name s : string) : bool :=
  match s with
  | EmptyString => String.prefix name EmptyString
  | String _ s' => String.prefix name s || str_contains name s'
  end.

(** [_get_tensor(tensors, name)] on a list: the first tensor whose name
    contains [name] (StopIteration, here None, when there is none). *)
Definition _get_tensor (tensors : list ktensor) (name : string)
    : option ktensor :=
  find (fun obj => str_contains name (kname obj)) tensors.

(** ['%d' % i] *)
Definition fmt_d (i : nat) : string :=
  DecimalString.NilEmpty.string_of_uint (Nat.to_uint i).

Definition ceil_div (n s : nat) : nat := ((n + s - 1) / s)%nat.

Definition prod_dims (sh : list nat) : nat := fold_right Nat.mul 1%nat sh.

Fixpoint broadcast_shapes (a b : list nat) : option (list nat) :=
  match a, b with
  | [], [] => Some []
  | x :: a', y :: b' =>
      match broadcast_shapes a' b' with
      | Some r =>
          if (x =? y)%nat then Some (x :: r)
          else if (x =? 1)%nat then Some (y :: r)
          else if (y =? 1)%nat then Some (x :: r)
          else None
      | None => None
      end
  | _, _ => None
  end.

(** Static output shape of a layer ('same' padding for the convolutions);
    None where Keras rejects the construction. *)
Fixpoint kshape (t : ktensor) : option (list nat) :=
  match t with
  | KInput _ sh => Some sh
  | KExternal _ sh _ => Some sh
  | KMultiply _ a b =>
      match kshape a, kshape b with
      | Some sa, Some sb => broadcast_shapes sa sb
      | _, _ => None
      end
  | KAdd _ a b =>
      match kshape a, kshape b with
      | Some sa, Some sb => broadcast_shapes sa sb
      | _, _ => None
      end
  | KConcatenate _ a b =>
      match kshape a, kshape b with
      | Some sa, Some sb =>
          if list_eq_dec Nat.eq_dec (removelast sa) (removelast sb)
          then Some (removelast sa ++ [(last sa 0 + last sb 0)%nat])
          else None
      | _, _ => None
      end
  | KPermute dims _ x =>
      match kshape x with
      | Some sh => Some (map (fun d => nth (d - 1) sh 0%nat) dims)
      | None => None
      end
  | KReshape target _ x =>
      match kshape x with
      | Some sh =>
          if (prod_dims sh =? prod_dims target)%nat then Some target else None
      | None => None
      end
  | KConv1D filters _ strides _ _ x =>
      match kshape x with
      | Some [t; _] => Some [ceil_div t strides; filters]
      | _ => None
      end
  | KConv2D filters _ (s1, s2) _ x =>
      match kshape x with
      | Some [h; w; _] => Some [ceil_div h s1; ceil_div w s2; filters]
      | _ => None
      end
  | KActivation _ _ x => kshape x
  | KInstanceNormalization _ x => kshape x
  | KGate _ h _ _ => kshape h
  | KMeanPool _ x =>
      match kshape x with
      | Some [_; _; c] => Some [c]
      | _ => None
      end
  | KUnfoldJoints _ j x =>
      match kshape x with
      | Some (_ :: sh) => Some (j :: sh)
      | _ => None
      end
  | KFoldJoints _ j x =>
      match kshape x with
      | Some (_ :: sh) => Some (j :: sh)
      | _ => None
      end
  end.

(** What the builder methods keep on [self]. *)
Record ModelState := {
  enc_layers : list ktensor;
  st_vae_z : option ktensor;
  st_vae_gen_z : option ktensor;
  nblocks : nat;
  unfolded_joints : nat
}.

Definition seq_len_val (cfg : Config) : nat :=
  match seq_len cfg with Some t => t | None => 0%nat end.

Definition vae_original_dim (cfg : Config) : nat := (njoints cfg * 3)%nat.
Definition vae_intermediate_dim (cfg : Config) : nat := vae_original_dim cfg.
Definition vae_latent_dim (cfg : Config) : nat := vae_original_dim cfg.

(** [_conv_block] *)
Definition _conv_block
    (x : ktensor) (out_filters bneck_factor kernel_size : nat)
    (strides : nat * nat) (i j : nat) (net_name : string)
    (conv_func : nat -> nat -> nat * nat -> string -> ktensor -> ktensor)
    : ktensor :=
  let nm (suffix : string) : string :=
    (net_name ++ "/block_" ++ fmt_d i ++ "/branch_" ++ fmt_d j ++ "/"
     ++ suffix)%string in
  let x := if str_contains "generator" net_name
           then KInstanceNormalization (nm "inorm_in") x else x in
  let x := KActivation Relu (nm "relu_in") x in
  let x := conv_func (out_filters / bneck_factor)%nat kernel_size
                     (1%nat, 1%nat) (nm "conv_in") x in
  let x := if str_contains "generator" net_name
           then KInstanceNormalization (nm "inorm_out") x else x in
  let x := KActivation Relu (nm "relu_out") x in
  conv_func out_filters kernel_size strides (nm "conv_out") x.

(** One gated block of the pose encoder (the body of the loop at
    lines 387-396): returns the new [h]. *)
Definition enc_block (cfg : Config) (h : ktensor) (i : nat) : ktensor :=
  let d := vae_intermediate_dim cfg in
  let pre := ("pose_vae/enc_" ++ fmt_d i)%string in
  let pi := KConv1D d 1 1 (Some Relu) (pre ++ "_0") h in
  let pi := KConv1D d 1 1 (Some Relu) (pre ++ "_1") pi in
  let tau := KConv1D d 1 1 (Some Sigmoid) (pre ++ "_tau") h in
  KGate (pre ++ "_attention") h pi tau.

(** The feature-extraction loop of the branch without pose encoder
    (lines 410-418), bounded by [fuel] iterations. *)
Fixpoint seq_fex_loop (fuel : nat) (cfg : Config) (n_hidden : nat)
    (strides : nat * nat) (x : ktensor) (i : nat) : ktensor * nat :=
  match fuel with
  | O => (x, i)
  | S fuel' =>
      let dim1_gt_1 :=
        match kshape x with
        | Some (d :: _) => (1 <? d)%nat
        | _ => false
        end in
      if (dim1_gt_1 && time_pres_emb cfg) || (i <? 3)%nat then
        let num_block := (n_hidden * (((i + 1) / 2) + 1))%nat in
        let blk := ("generator/seq_fex/block_" ++ fmt_d i)%string in
        let shortcut := KConv2D num_block 1 strides (blk ++ "/shortcut") x in
        let pi := _conv_block x num_block 8 3 strides i 0
                              "generator/seq_fex" KConv2D in
        let x := KAdd (blk ++ "/add") shortcut pi in
        let x := KActivation Relu (blk ++ "/relu_out") x in
        seq_fex_loop fuel' cfg n_hidden strides x (S i)
      else (x, i)
  end.

(** [_proc_gen_inputs]; [unfold_out] is the joint count the UnfoldJoints
    layer (layers/joints.py) produces. *)
Definition _proc_gen_inputs (cfg : Config) (unfold_out : nat)
    (st : ModelState) (input_tensors : list ktensor)
    : option (ktensor * ModelState) :=
  let n_hidden := if time_pres_emb cfg then 32%nat else 128%nat in
  match _get_tensor input_tensors "real_seq",
        _get_tensor input_tensors "seq_mask" with
  | Some x, Some x_mask =>
      let x := KMultiply "generator/mask_mult" x x_mask in
      let '(x, st) :=
        if unfold_joints cfg then
          (KUnfoldJoints (data_set cfg) unfold_out x,
           {| enc_layers := enc_layers st; st_vae_z := st_vae_z st;
              st_vae_gen_z := st_vae_gen_z st; nblocks := nblocks st;
              unfolded_joints := unfold_out |})
        else (x, st) in
      let '(x, st) :=
        if use_pose_vae cfg then
          let x := KPermute [2; 1; 3]%nat "pose_vae/perm_in" x in
          let x := KReshape [seq_len_val cfg; (njoints cfg * 3)%nat]
                            "pose_vae/resh_in" x in
          let h := KConv1D (vae_intermediate_dim cfg) 1 1 None
                           "pose_vae/enc_in" x in
          let '(h, layers) :=
            fold_left (fun (acc : ktensor * list ktensor) i =>
                         let h := enc_block cfg (fst acc) i in
                         (h, snd acc ++ [h]))
                      (seq 0 3) (h, []) in
          let z := KConv1D (vae_latent_dim cfg) 1 1 None
                           "pose_vae/z_mean" h in
          let z_attention := KConv1D (vae_latent_dim cfg) 1 1 (Some Sigmoid)
                                     "pose_vae/z_attention" h in
          let z := KMultiply "pose_vae/vae_attention" z z_attention in
          let x := KReshape [seq_len_val cfg; vae_latent_dim cfg; 1%nat]
                            "generator/gen_reshape_in" z in
          (x, {| enc_layers := layers; st_vae_z := Some z;
                 st_vae_gen_z := st_vae_gen_z st; nblocks := 4;
                 unfolded_joints := unfolded_joints st |})
        else
          let strides := if time_pres_emb cfg then (2, 1)%nat else (2, 2)%nat in
          let fuel :=
            match kshape x with
            | Some (d :: _) => (d + 3)%nat
            | _ => 3%nat
            end in
          let '(x, i) := seq_fex_loop fuel cfg n_hidden strides x 0 in
          let x := if negb (time_pres_emb cfg)
                   then KMeanPool "generator/seq_fex/mean_pool" x else x in
          (x, {| enc_layers := enc_layers st; st_vae_z := st_vae_z st;
                 st_vae_gen_z := st_vae_gen_z st; nblocks := i;
                 unfolded_joints := unfolded_joints st |}) in
      if (0 <? latent_cond_dim cfg)%nat then
        match _get_tensor input_tensors "latent_cond_input" with
        | Some x_lat => Some (KConcatenate "generator/cat_in" x x_lat, st)
        | None => None
        end
      else Some (x, st)
  | _, _ => None
  end.



Definition init_state (cfg : Config) : ModelState :=
  {| enc_layers := []; st_vae_z := None; st_vae_gen_z := None;
     nblocks := 0; unfolded_joints := njoints cfg |}.

(** The generator part of [__init__] (lines 108-117): the inputs, the input
    stage, the architecture's [generator] method, the output stage. *)
Definition gen_inputs (cfg : Config) : list ktensor :=
  let T := seq_len_val cfg in
  let real_seq := KInput "real_seq" [njoints cfg; T; 3%nat] in
  let seq_mask := KInput "seq_mask" [njoints cfg; T; 1%nat] in
  let gen_inputs := [real_seq; seq_mask] in
  if (0 <? latent_cond_dim cfg)%nat
  then gen_inputs ++ [KInput "latent_cond_input" [latent_cond_dim cfg]]
  else gen_inputs.



(** ** utils/scoping.py: the name-scope stack *)

Record Scoping := { _name_stack : string }.

Inductive exn :=
| ValueError (msg : string)
| IndexError (msg : string)
| OtherError (msg : string).

(** A computation on a [Scoping] object that returns or raises. *)
Definition scoped (A : Type) : Type := Scoping -> (exn + A) * Scoping.

Definition set_name_stack (self : Scoping) (v : string) : Scoping :=
  {| _name_stack := v |}.

(** [with self.name_scope(scope) as v: body v].  The generator saves the
    stack, extends it and yields the new stack; the body runs on the
    extended object; whether the body returns or raises, the [finally]
    clause stores the saved stack back, and the body's outcome is the
    outcome of the [with] statement. *)
Definition name_scope {A : Type} (scope : string)
    (body : string -> scoped A) : scoped A :=
  fun self =>
    let old_stack := _name_stack self in
    let self :=
      if String.eqb (_name_stack self) ""
      then set_name_stack self scope
      else set_name_stack self (_name_stack self ++ ("/" ++ scope)) in
    let '(outcome, self) := body (_name_stack self) self in
    (outcome, set_name_stack self old_stack).

(** [Scoping.__str__] *)
Definition Scoping_str (self : Scoping) : string := _name_stack self.

(** The stack the generator yields when entered on [prior]. *)
Definition entered_stack (prior scope : string) : string :=
  if String.eqb prior "" then scope else prior ++ "/" ++ scope.

(** ** utils/tfangles.py: [vector3d_to_quaternion] *)

(** A tensor of any rank: its static shape and its nested value. *)
Inductive nd :=
| Sc (v : R)
| Nd (xs : list nd).

Record Tensor := { t_shape : list nat; t_value : nd }.

(** The value has the rectangular form its shape announces. *)
Fixpoint wf_nd (sh : list nat) (x : nd) : Prop :=
  match sh with
  | [] => match x with Sc _ => True | Nd _ => False end
  | d :: sh' =>
      match x with
      | Sc _ => False
      | Nd xs => length xs = d /\ Forall (wf_nd sh') xs
      end
  end.

Definition wf_tensor (x : Tensor) : Prop := wf_nd (t_shape x) (t_value x).

Fixpoint zeros (sh : list nat) : nd :=
  match sh with
  | [] => Sc 0
  | d :: sh' => Nd (repeat (zeros sh') d)
  end.

Fixpoint padded_shape (sh : list nat) (paddings : list (nat * nat))
    : list nat :=
  match sh, paddings with
  | d :: sh', (before, after) :: p' =>
      (before + d + after)%nat :: padded_shape sh' p'
  | _, _ => sh
  end.

(** tf.pad(x, paddings), constant mode: along each axis [before] zero
    slices are put in front and [after] behind. *)
Fixpoint tf_pad_nd (paddings : list (nat * nat)) (sh : list nat) (x : nd)
    : nd :=
  match paddings, sh, x with
  | (before, after) :: p', _ :: sh', Nd xs =>
      let z := zeros (padded_shape sh' p') in
      Nd (repeat z before ++ map (tf_pad_nd p' sh') xs ++ repeat z after)
  | _, _, _ => x
  end.

Definition tf_pad (x : Tensor) (paddings : list (nat * nat)) : Tensor :=
  {| t_shape := padded_shape (t_shape x) paddings;
     t_value := tf_pad_nd paddings (t_shape x) (t_value x) |}.

(** [x.shape[-1]]: IndexError on a tensor of rank 0. *)
Definition shape_last (sh : list nat) : exn + nat :=
  match sh with
  | [] => inl (IndexError "list index out of range")
  | _ => inr (last sh 0%nat)
  end.

Definition vector3d_to_quaternion (x : Tensor) : exn + Tensor :=
  match shape_last (t_shape x) with
  | inl e => inl e
  | inr d =>
      if negb (d =? 3)%nat
      then inl (ValueError "The last dimension of x must be 3.")
      else inr (tf_pad x (repeat (0%nat, 0%nat) (length (t_shape x) - 1)
                          ++ [(1%nat, 0%nat)]))
  end.

(** What the docstring promises, written on its own: a 0 is put in front
    of every innermost vector, [[1,2,3]] -> [[0,1,2,3]]. *)
Fixpoint prepend_zero (rank : nat) (x : nd) : nd :=
  match rank, x with
  | 1%nat, Nd xs => Nd (Sc 0 :: xs)
  | S r, Nd xs => Nd (map (prepend_zero r) xs)
  | _, _ => x
  end.

(** A mask is binary when every entry is 0 or 1. *)
Definition binary3 (mask : tensor3) : Prop :=
  Forall (Forall (Forall (fun v => v = 0 \/ v = 1))) mask.

(** Frame [t] of a sample is all zero: every coordinate of every joint at
    that frame is 0. *)
Definition frame_all_zero (real : tensor3) (t : nat) : Prop :=
  Forall (fun joint => Forall (fun v => v = 0) (nth t joint [])) real.

(** [d[k]] *)
Fixpoint od_get {V : Type} (d : odict V) (k : string) : option V :=
  match d with
  | [] => None
  | (k', v) :: d' => if String.eqb k' k then Some v else od_get d' k
  end.

(** A sample is rectangular; a second sample has the shape of a first. *)
Definition rect3 (x : tensor3) : Prop :=
  has_shape3 (dim0 x) (dim1 x) (dim2 x) x.

Definition same_shape3 (r g : tensor3) : Prop :=
  has_shape3 (dim0 r) (dim1 r) (dim2 r) g.

(** Every sample's interpolation coefficient is [v]. *)
Definition all_alpha (alpha : tensor4) (n : nat) (v : R) : Prop :=
  forall b, (b < n)%nat -> at4 alpha b 0 0 0 = v.

(** The same feed with other interpolation coefficients. *)
Definition set_alpha (inp : LossInputs) (a : tensor4) : LossInputs :=
  {| real_seq := real_seq inp; seq_mask := seq_mask inp;
     gen_seq := gen_seq inp; alpha := a;
     true_label := true_label inp;
     latent_cond_input := latent_cond_input inp;
     disc_model_losses := disc_model_losses inp;
     gen_model_losses := gen_model_losses inp;
     smooth_Qs := smooth_Qs inp; vae_z := vae_z inp |}.

(** A critic and a feed small enough to evaluate by hand: the score is the
    first coordinate of the first joint, its gradient the input itself. *)
Definition toy_critic : Critic :=
  {| score_out := fun x => [at3 x 0 0 0];
     label_out := fun _ => [0; 0];
     latent_cond_out := fun _ => [];
     frame_score_out := fun x => tab (dim1 x) (fun t => [at3 x 0 t 0]);
     score_grad := fun x => x;
     frame_score_grad := fun x => x |}.

Definition toy_inputs : LossInputs :=
  {| real_seq := [[[[1; 2; 3]]]]; seq_mask := [[[[1]]]];
     gen_seq := [[[[4; 5; 6]]]]; alpha := [[[[1 / 2]]]];
     true_label := [0%nat]; latent_cond_input := [];
     disc_model_losses := [1]; gen_model_losses := [1];
     smooth_Qs := [[1]]; vae_z := [[[0; 0; 0]]] |}.

(** What an unordered pair of joints (i,j) adds to the shape loss when it is
    not masked: the mean over the generated frames of the squared gap
    between the real pair's time-averaged distance and the generated pair's
    distance. *)
Definition pair_term (real gen : tensor3) (i j : nat) : R :=
  let er := edm_sample real in
  let eg := edm_sample gen in
  Rmean (tab (dim2 eg) (fun t =>
    Rsqr (Rmean (nth j (nth i er []) []) - at3 eg i j t))).

(** Three joints on one frame; the two poses agree on the distances of the
    pairs (0,1) and (1,2) and differ on the pair (0,2). *)
Definition line_pose : tensor3 := [[[0; 0; 0]]; [[1; 0; 0]]; [[2; 0; 0]]].
Definition bent_pose : tensor3 := [[[0; 0; 0]]; [[1; 0; 0]]; [[1; 1; 0]]].



(** ** The names a configuration enables, in insertion order *)

Definition opt_key (b : bool) (k : string) : list string :=
  if b then [k] else [].

Definition wgan_keys (cfg : Config) : list string :=
  ["loss_real"; "loss_fake"]
  ++ (if use_pose_vae cfg then ["frame_loss_real"; "frame_loss_fake"] else []).

Definition disc_keys (cfg : Config) (inp : LossInputs) : list string :=
  ["disc_loss_wgan"]
  ++ opt_key (0 <? length (disc_model_losses inp))%nat "disc_loss_reg"
  ++ opt_key (use_pose_vae cfg) "frame_disc_loss_wgan"
  ++ opt_key (action_cond cfg) "disc_loss_action"
  ++ opt_key (0 <? latent_cond_dim cfg)%nat "disc_loss_latent".

Definition gen_keys (cfg : Config) (inp : LossInputs) : list string :=
  ["gen_loss_wgan"]
  ++ opt_key (0 <? length (gen_model_losses inp))%nat "gen_loss_reg"
  ++ ["gen_loss_rec"; "gen_loss_rec_edm"]
  ++ opt_key (use_pose_vae cfg) "frame_gen_loss_wgan"
  ++ opt_key (action_cond cfg) "gen_loss_action"
  ++ opt_key (0 <? latent_cond_dim cfg)%nat "gen_loss_latent"
  ++ opt_key (coherence_loss cfg) "gen_loss_coh"
  ++ opt_key (displacement_loss cfg) "gen_loss_disp"
  ++ opt_key (shape_loss cfg) "gen_loss_shape"
  ++ opt_key (smoothing_loss cfg) "gen_loss_smooth".

(** A list of names has no repetition (decided). *)
Fixpoint nodupb (l : list string) : bool :=
  match l with
  | [] => true
  | x :: l' => negb (existsb (String.eqb x) l') && nodupb l'
  end.







(** ** Further definitions used to state properties of the code *)


(** [d.update(other)]: every pair of [other] is stored into [d] in turn. *)
Definition od_update {V : Type} (d other : odict V) : odict V :=
  fold_left (fun d kv => od_set d (fst kv) (snd kv)) other d.

(** train.py lines 124-125: [logs = disc_losses.copy();
    logs.update(gen_losses)]. *)
Definition train_logs (disc_losses gen_losses : odict R) : odict R :=
  od_update disc_losses gen_losses.

(** The entries of a dictionary with every key passed through [f]. *)
Definition rekey {V W : Type} (f : string -> string) (g : V -> W)
    (d : odict V) : odict W :=
  map (fun kv => (f (fst kv), g (snd kv))) d.

(** Dense(units, name=...) applied to [x]: the layer is kept opaque, with
    its name and its output shape. *)
Definition KDense (units : nat) (name : string) (x : ktensor) : ktensor :=
  KExternal name [units] x.

(** One gated block of the discriminator's per-frame encoder (the body of
    the loop at lines 348-356). *)
Definition disc_enc_block (cfg : Config) (h : ktensor) (i : nat) : ktensor :=
  let d := vae_intermediate_dim cfg in
  let pre := ("discriminator/pose_vae/enc_" ++ fmt_d i)%string in
  let pi := KConv1D d 1 1 (Some Relu) (pre ++ "_0") h in
  let pi := KConv1D d 1 1 (Some Relu) (pre ++ "_1") pi in
  let tau := KConv1D d 1 1 (Some Sigmoid) (pre ++ "_tau") h in
  KGate (pre ++ "_attention") h pi tau.

(** [_proc_disc_outputs]: [x] is what the architecture's discriminator
    returns, [disc_input] is [self.disc_inputs[0]]. *)
Definition _proc_disc_outputs (cfg : Config) (disc_input x : ktensor)
    : list ktensor :=
  let score_out := KDense 1 "discriminator/score_out" x in
  let output_tensors := [score_out] in
  let output_tensors :=
    if action_cond cfg
    then output_tensors
         ++ [KDense (num_actions cfg) "discriminator/label_out" x]
    else output_tensors in
  let output_tensors :=
    if (0 <? latent_cond_dim cfg)%nat
    then output_tensors
         ++ [KDense (latent_cond_dim cfg) "discriminator/latent_cond_out" x]
    else output_tensors in
  if use_pose_vae cfg then
    let gen_seq := disc_input in
    let h := KPermute [2; 1; 3]%nat "discriminator/pose_vae/perm_in" gen_seq in
    let h := KReshape [seq_len_val cfg; (njoints cfg * 3)%nat]
                      "discriminator/pose_vae/resh_in" h in
    let h := KConv1D (vae_intermediate_dim cfg) 1 1 None
                     "discriminator/pose_vae/enc_in" h in
    let h := fold_left (disc_enc_block cfg) (seq 0 3) h in
    let z := KConv1D (vae_latent_dim cfg) 1 1 None
                     "discriminator/pose_vae/z_mean" h in
    let z_attention := KConv1D (vae_latent_dim cfg) 1 1 (Some Sigmoid)
                               "discriminator/pose_vae/z_attention" h in
    let z := KMultiply "discriminator/pose_vae/vae_attention" z z_attention in
    let frame_score_out := KConv1D 1 1 1 None
                                   "discriminator/frame_score_out" z in
    output_tensors ++ [frame_score_out]
  else output_tensors.

(** ** utils/scoping.py, continued *)

(** [Scoping.__add__]: [str(self) + '/' + str(other)]. *)
Definition Scoping_add (self : Scoping) (other : string) : string :=
  Scoping_str self ++ "/" ++ other.

(** [scope_wrapper(func)]: the wrapped function enters a name scope named
    after [func] on the global scope object, which is the object the
    computation runs on, and calls [func] with that object. *)
Definition scope_wrapper {A : Type} (func_name : string) (func : scoped A)
    : scoped A :=
  name_scope func_name (fun _ => func).

(** ** utils/tfangles.py, continued *)

(** [q[..., 1:]] on a nested value of the given rank: the first entry
    along the last axis is dropped. *)
Fixpoint drop_first_last (rank : nat) (x : nd) : nd :=
  match rank, x with
  | 1%nat, Nd xs => Nd (tl xs)
  | S r, Nd xs => Nd (map (drop_first_last r) xs)
  | _, _ => x
  end.

(** [quaternion_to_vector3d]: slicing the last axis needs an axis. *)
Definition quaternion_to_vector3d (q : Tensor) : exn + Tensor :=
  match t_shape q with
  | [] => inl (IndexError "too many indices")
  | sh => inr {| t_shape := removelast sh ++ [(last sh 0 - 1)%nat];
                 t_value := drop_first_last (length sh) (t_value q) |}
  end.

(** The quaternion functions below are given for one quaternion (a vector
    of length 4) and one 3D vector; on arguments of equal higher rank the
    source applies the same formulas along the last axis. *)

(** tf.cross on two 3-vectors *)
Definition tf_cross (a b : tensor1) : tensor1 :=
  [at1 a 1 * at1 b 2 - at1 a 2 * at1 b 1;
   at1 a 2 * at1 b 0 - at1 a 0 * at1 b 2;
   at1 a 0 * at1 b 1 - at1 a 1 * at1 b 0].

Definition vadd (a b : tensor1) : tensor1 :=
  tab (length a) (fun i => at1 a i + at1 b i).

Definition zeros_like (a : tensor1) : tensor1 := map (fun _ => 0) a.

(** [tf.sqrt(tf.reduce_sum(tf.square(q), axis=-1, keep_dims=True) + 1e-8)] *)
Definition quat_norm (q : tensor1) : R := sqrt (Rsum (map Rsqr q) + 1e-8).

Definition rotate_vector_by_quaternion (q v : tensor1) : tensor1 :=
  let qnorm := quat_norm q in
  let q := map (fun a => a / qnorm) q in
  let w := at1 q 0 in
  let q_xyz := tl q in
  let q_xyz := vadd q_xyz (zeros_like v) in
  let v := vadd v (zeros_like q_xyz) in
  let t := map (fun a => 2 * a) (tf_cross q_xyz v) in
  vadd (vadd v (map (fun a => w * a) t)) (tf_cross q_xyz t).

(** [tf.multiply(q, [1.0, -1.0, -1.0, -1.0])] *)
Definition quaternion_conjugate (q : tensor1) : tensor1 :=
  tab 4 (fun i => at1 q i * at1 [1; -1; -1; -1] i).

Definition quat_to_rotmat (q : tensor1) : tensor2 :=
  let diag a b := 1 - 2 * a ^ 2 - 2 * b ^ 2 in
  let tr_add a b c d := 2 * a * b + 2 * c * d in
  let tr_sub a b c d := 2 * a * b - 2 * c * d in
  let qnorm := quat_norm q in
  let qn := map (fun a => a / qnorm) q in
  let w := at1 qn 0 in
  let x := at1 qn 1 in
  let y := at1 qn 2 in
  let z := at1 qn 3 in
  [[diag y z; tr_sub x y z w; tr_add x z y w];
   [tr_add x y z w; diag x z; tr_sub y z x w];
   [tr_sub x z y w; tr_add y z x w; diag x y]].

(** The product of a 3x3 matrix with a 3-vector, and the transpose. *)
Definition matvec3 (m : tensor2) (v : tensor1) : tensor1 :=
  tab 3 (fun i => Rsum (tab 3 (fun k => at2 m i k * at1 v k))).

Definition transpose3 (m : tensor2) : tensor2 :=
  tab 3 (fun i => tab 3 (fun k => at2 m k i)).

(** ** data_input.py: normalisation and batch pre-computation *)



(** Python's [rows[a:b]] for [a <= b]. *)
Definition py_slice {A : Type} (rows : list A) (a b : nat) : list A :=
  firstn (b - a) (skipn a rows).

(** [pre_comp_batches]: the loaded rows (a label, a pose and a hip pose
    each) are cut into [len // batch_size + 1] slices, and a slice shorter
    than the batch size is filled up with rows at random indices;
    [rand slice_idx k] stands for the [k] indices drawn for that slice.
    The definition covers a positive batch size and at least one row: the
    source's division raises on a zero batch size, and its random draw
    from [0, len - 1] raises when there is no row. *)
Definition pre_comp_batches {A : Type} (batch_size : nat) (rows : list A)
    (rand : nat -> nat -> list nat) (d : A) : list (list A) :=
  let epoch_size := (length rows / batch_size + 1)%nat in
  tab epoch_size (fun slice_idx =>
    let slice_start := (slice_idx * batch_size)%nat in
    let slice_len := Nat.min (slice_start + batch_size) (length rows) in
    let batch := py_slice rows slice_start slice_len in
    if (length batch <? batch_size)%nat then
      let rand_indices := rand slice_idx (batch_size - length batch)%nat in
      batch ++ map (fun i => nth i rows d) rand_indices
    else batch).

(** ** train.py: the learning-rate schedule and the image condition *)

(** [config.learning_rate * (1.0 - (epoch / config.num_epochs))], with
    true division. *)
Definition decayed_learning_rate (learning_rate : R) (epoch num_epochs : nat)
    : R :=
  learning_rate * (1 - INR epoch / INR num_epochs).

(** [(epoch % (config.num_epochs // 10)) == 0 or
    epoch == (config.num_epochs - 1)]; the modulo is evaluated first and
    raises ZeroDivisionError on a zero divisor. *)
Definition render_images (epoch num_epochs : nat) : exn + bool :=
  if (num_epochs / 10 =? 0)%nat
  then inl (OtherError "ZeroDivisionError")
  else inr ((epoch mod (num_epochs / 10) =? 0)%nat
            || (epoch =? num_epochs - 1)%nat).

(** [sub_sample_pose] of data_input.py on a pose and a hip pose of shape
    [joints, time, channels].  [picks] stands for the index array the
    source computes with numpy's random numbers in the [pick_num < plen]
    branch, and [randint low high] for [np.random.randint(low, high)],
    which draws from [low, high).  [pick_num] and [crop_len] are
    non-negative in every configuration of the repository. *)
Definition sub_sample_pose (pick_num crop_len : nat) (picks : list nat)
    (randint : nat -> nat -> nat) (pose hip_pose : tensor3) (plen : nat)
    : tensor3 * tensor3 :=
  if (0 <? pick_num)%nat then
    if (plen <=? pick_num)%nat then
      (map (firstn pick_num) pose, map (firstn pick_num) hip_pose)
    else
      (map (fun row => map (fun k => nth k row []) picks) pose,
       map (fun row => map (fun k => nth k row []) picks) hip_pose)
  else if (0 <? crop_len)%nat then
    if (plen <=? crop_len)%nat then
      (map (firstn crop_len) pose, map (firstn crop_len) hip_pose)
    else
      let indx := randint 0%nat (plen - crop_len)%nat in
      (map (fun row => py_slice row indx (indx + crop_len)) pose,
       map (fun row => py_slice row indx (indx + crop_len)) hip_pose)
  else (pose, hip_pose).

(** ** config.py: the joints of the Human36 data set *)

Record body_member := { joints : list nat; side : string }.

(** Python's [list.index]: the first position of [x], or ValueError. *)
Fixpoint list_index (l : list nat) (x : nat) : exn + nat :=
  match l with
  | [] => inl (ValueError "x is not in list")
  | y :: l' =>
      if (y =? x)%nat then inr 0%nat
      else match list_index l' x with
           | inr i => inr (S i)
           | inl e => inl e
           end
  end.

(** [[config.used_joints.index(j) for j in joints]]. *)
Fixpoint index_joints (used_joints js : list nat) : exn + list nat :=
  match js with
  | [] => inr []
  | j :: js' =>
      match list_index used_joints j with
      | inl e => inl e
      | inr i => match index_joints used_joints js' with
                 | inl e => inl e
                 | inr idx => inr (i :: idx)
                 end
      end
  end.

(** The loop of [get_config] that rewrites the joints of every body member
    as positions in [used_joints], over the items of [body_members]. *)
Fixpoint reindex_body_members (used_joints : list nat)
    (body_members : list (string * body_member))
    : exn + list (string * body_member) :=
  match body_members with
  | [] => inr []
  | (key, value) :: rest =>
      match index_joints used_joints (joints value) with
      | inl e => inl e
      | inr js =>
          match reindex_body_members used_joints rest with
          | inl e => inl e
          | inr rest' =>
              inr ((key, {| joints := js; side := side value |}) :: rest')
          end
      end
  end.

Definition human36_body_members : list (string * body_member) :=
  [ ("left_arm", {| joints := [13; 17; 18; 19]%nat; side := "left" |});
    ("right_arm", {| joints := [13; 25; 26; 27]%nat; side := "right" |});
    ("head", {| joints := [13; 14; 15]%nat; side := "right" |});
    ("torso", {| joints := [0; 12; 13]%nat; side := "right" |});
    ("left_leg", {| joints := [0; 6; 7; 8]%nat; side := "left" |});
    ("right_leg", {| joints := [0; 1; 2; 3]%nat; side := "right" |}) ].

Definition human36_used_joints : list nat :=
  [0; 1; 2; 3; 6; 7; 8; 12; 13; 14; 15; 17; 18; 19; 25; 26; 27]%nat.

(** Every joint of every body member occurs in [used_joints]. *)
Definition all_joints_used (used_joints : list nat)
    (body_members : list (string * body_member)) : bool :=
  forallb (fun km =>
    forallb (fun j => existsb (Nat.eqb j) used_joints) (joints (snd km)))
    body_members.


(** * Properties *)

(** ** Basic facts about tabulation and sums *)

Lemma tab_length {A : Type} (n : nat) (f : nat -> A) : length (tab n f) = n.
Proof. unfold tab. now rewrite length_map, length_seq. Qed.

Lemma nth_tab {A : Type} (n : nat) (f : nat -> A) (i : nat) (d : A) :
  (i < n)%nat -> nth i (tab n f) d = f i.
Proof.
  intros Hi. unfold tab.
  rewrite (nth_indep _ d (f 0%nat)) by now rewrite length_map, length_seq.
  rewrite map_nth. now rewrite seq_nth.
Qed.

Lemma tab_ext {A : Type} (n : nat) (f g : nat -> A) :
  (forall i, (i < n)%nat -> f i = g i) -> tab n f = tab n g.
Proof.
  intros H. unfold tab. apply map_ext_in.
  intros i Hi. apply in_seq in Hi. apply H. lia.
Qed.

Lemma tab_S {A : Type} (n : nat) (f : nat -> A) :
  tab (S n) f = tab n f ++ [f n].
Proof. unfold tab. now rewrite seq_S, map_app. Qed.

Lemma tab_nth_id {A : Type} (l : list A) (d : A) :
  tab (length l) (fun i => nth i l d) = l.
Proof.
  induction l as [|a l IH] using rev_ind; [reflexivity|].
  rewrite length_app, Nat.add_comm. cbn [length Nat.add]. rewrite tab_S.
  rewrite app_nth2, Nat.sub_diag by lia. cbn [nth]. f_equal.
  rewrite <- IH at 2. apply tab_ext. intros i Hi. now rewrite app_nth1.
Qed.

Lemma Rsum_app (l1 l2 : list R) : Rsum (l1 ++ l2) = Rsum l1 + Rsum l2.
Proof.
  unfold Rsum. induction l1 as [|a l1 IH]; cbn [app fold_right]; lra.
Qed.

Lemma Rsum_nonneg (l : list R) : Forall (fun v => 0 <= v) l -> 0 <= Rsum l.
Proof. unfold Rsum. induction 1; cbn [fold_right]; lra. Qed.

Lemma Rsum_zero (l : list R) : Forall (fun v => v = 0) l -> Rsum l = 0.
Proof. unfold Rsum. induction 1; cbn [fold_right]; lra. Qed.

Lemma Rsum_tab_zero (n : nat) (f : nat -> R) :
  (forall i, (i < n)%nat -> f i = 0) -> Rsum (tab n f) = 0.
Proof.
  intros H. apply Rsum_zero. apply Forall_forall. intros v Hv.
  unfold tab in Hv. apply in_map_iff in Hv. destruct Hv as [i [<- Hi]].
  apply in_seq in Hi. apply H. lia.
Qed.

Lemma Rsum_tab_nonneg (n : nat) (f : nat -> R) :
  (forall i, (i < n)%nat -> 0 <= f i) -> 0 <= Rsum (tab n f).
Proof.
  intros H. apply Rsum_nonneg. apply Forall_forall. intros v Hv.
  unfold tab in Hv. apply in_map_iff in Hv. destruct Hv as [i [<- Hi]].
  apply in_seq in Hi. apply H. lia.
Qed.

Lemma K_epsilon_pos : 0 < K_epsilon.
Proof. unfold K_epsilon. lra. Qed.

Lemma at3_edm (x : tensor3) (i j t : nat) :
  (i < dim0 x)%nat -> (j < dim0 x)%nat -> (t < dim1 x)%nat ->
  at3 (edm_sample x) i j t =
  sqrt (Rsum (tab (dim2 x) (fun c => Rsqr (at3 x j t c - at3 x i t c)))
        + K_epsilon).
Proof.
  intros Hi Hj Ht. unfold at3, at2, at1, edm_sample.
  rewrite (nth_tab _ _ i) by assumption.
  rewrite (nth_tab _ _ j) by assumption.
  now rewrite (nth_tab _ _ t) by assumption.
Qed.

(** C8 (as the code has it): for every frame the distance matrix is
    symmetric, every entry is non-negative, and every diagonal entry is
    exactly the square root of the epsilon added under the root. *)
Theorem edm_symmetric_nonneg_diag (x : tensor3) (i j t : nat) :
  (i < dim0 x)%nat -> (j < dim0 x)%nat -> (t < dim1 x)%nat ->
  at3 (edm_sample x) i j t = at3 (edm_sample x) j i t /\
  0 <= at3 (edm_sample x) i j t /\
  at3 (edm_sample x) i i t = sqrt K_epsilon.
Proof.
  intros Hi Hj Ht. rewrite !at3_edm by assumption. repeat split.
  - do 2 f_equal. apply (f_equal Rsum). apply tab_ext. intros c _.
    unfold Rsqr. ring.
  - apply sqrt_pos.
  - f_equal. rewrite Rsum_tab_zero; [lra|].
    intros c _. unfold Rsqr. ring.
Qed.

(** C8, the claim as worded: a diagonal entry is not within epsilon of
    zero.  One joint at the origin, one frame: D[0,0] = sqrt(1e-7), about
    3.16e-4, which exceeds 1e-7. *)
Lemma edm_diag_exceeds_epsilon :
  ~ (Rabs (at3 (edm_sample [[[0; 0; 0]]]) 0 0 0 - 0) <= K_epsilon).
Proof.
  rewrite at3_edm by (cbn; lia).
  rewrite Rsum_tab_zero by (intros c _; unfold Rsqr; ring).
  rewrite Rplus_0_l, Rminus_0_r, Rabs_pos_eq by apply sqrt_pos.
  pose proof K_epsilon_pos as Hp.
  assert (Hlt : K_epsilon < sqrt K_epsilon).
  { rewrite <- (sqrt_Rsqr K_epsilon) at 1 by lra.
    apply sqrt_lt_1_alt. unfold Rsqr, K_epsilon in *. split; nra. }
  lra.
Qed.

Lemma edm_symmetric_nonneg_diag_witness :
  at3 (edm_sample [[[0; 0; 0]]; [[1; 0; 0]]]) 0 1 0
  = at3 (edm_sample [[[0; 0; 0]]; [[1; 0; 0]]]) 1 0 0 /\
  0 <= at3 (edm_sample [[[0; 0; 0]]; [[1; 0; 0]]]) 0 1 0 /\
  at3 (edm_sample [[[0; 0; 0]]; [[1; 0; 0]]]) 0 0 0 = sqrt K_epsilon.
Proof.
  apply (edm_symmetric_nonneg_diag [[[0; 0; 0]]; [[1; 0; 0]]] 0 1 0);
    cbn; lia.
Defined.

(** ** Rank-3 tabulation *)

Lemma at3_tab3 (J T C : nat) (F : nat -> nat -> nat -> R) (j t c : nat) :
  (j < J)%nat -> (t < T)%nat -> (c < C)%nat ->
  at3 (tab J (fun j => tab T (fun t => tab C (F j t)))) j t c = F j t c.
Proof.
  intros Hj Ht Hc. unfold at3, at2, at1.
  rewrite (nth_tab _ _ j) by assumption.
  rewrite (nth_tab _ _ t) by assumption.
  now rewrite (nth_tab _ _ c) by assumption.
Qed.

Lemma dim0_tab {A : Type} (J : nat) (f : nat -> A) : dim0 (tab J f) = J.
Proof. apply tab_length. Qed.

Lemma dim1_tab {A : Type} (J T : nat) (f : nat -> nat -> A) :
  (0 < J)%nat -> dim1 (tab J (fun j => tab T (f j))) = T.
Proof.
  intros HJ. unfold dim1. rewrite (nth_tab _ _ 0%nat) by assumption.
  apply tab_length.
Qed.

Lemma dim2_tab {A : Type} (J T C : nat) (f : nat -> nat -> nat -> A) :
  (0 < J)%nat -> (0 < T)%nat ->
  dim2 (tab J (fun j => tab T (fun t => tab C (f j t)))) = C.
Proof.
  intros HJ HT. unfold dim2. rewrite (nth_tab _ _ 0%nat) by assumption.
  rewrite (nth_tab _ _ 0%nat) by assumption. apply tab_length.
Qed.

Lemma tab_0 {A : Type} (f : nat -> A) : tab 0 f = [].
Proof. reflexivity. Qed.

(** A rank-3 tabulation re-tabulated over its own shape. *)
Lemma retab3 (J T C : nat) (F G : nat -> nat -> nat -> R) :
  let y := tab J (fun j => tab T (fun t => tab C (F j t))) in
  (forall j t c, (j < J)%nat -> (t < T)%nat -> (c < C)%nat ->
     G j t c = F j t c) ->
  tab (dim0 y) (fun j => tab (dim1 y) (fun t => tab (dim2 y) (G j t))) = y.
Proof.
  intros y H. subst y. rewrite dim0_tab.
  destruct J as [|J']; [reflexivity|].
  rewrite dim1_tab by lia.
  destruct T as [|T'].
  - apply tab_ext. intros j _. reflexivity.
  - rewrite dim2_tab by lia.
    apply tab_ext; intros j Hj. apply tab_ext; intros t Ht.
    apply tab_ext; intros c Hc. now apply H.
Qed.

Lemma nth_Forall_default {A : Type} (P : A -> Prop) (l : list A) (d : A)
    (i : nat) :
  Forall P l -> P d -> P (nth i l d).
Proof.
  intros Hl Hd. destruct (Nat.lt_ge_cases i (length l)) as [Hi|Hi].
  - rewrite Forall_forall in Hl. apply Hl. now apply nth_In.
  - now rewrite nth_overflow.
Qed.

Lemma binary3_at3 (mask : tensor3) (j t c : nat) :
  binary3 mask -> at3 mask j t c = 0 \/ at3 mask j t c = 1.
Proof.
  intros Hb. unfold at3, at2, at1.
  apply nth_Forall_default; [|now left].
  apply (nth_Forall_default (Forall (fun v => v = 0 \/ v = 1)));
    [|constructor].
  apply (nth_Forall_default
           (Forall (Forall (fun v => v = 0 \/ v = 1)))); [exact Hb|constructor].
Qed.

(** C7: for a binary mask, the generator's multiplicative masking
    (the [generator/mask_mult] layer, [x * seq_mask] with the mask broadcast
    over the coordinate axis) applied twice gives what it gives once. *)
Theorem mask_mult_idempotent (pose mask : tensor3) :
  binary3 mask ->
  mul_mask (mul_mask pose mask) mask = mul_mask pose mask.
Proof.
  intros Hb. unfold mul_mask at 1.
  unfold mul_mask. apply retab3.
  intros j t c Hj Ht Hc. rewrite at3_tab3 by assumption.
  destruct (binary3_at3 mask j t 0 Hb) as [-> | ->]; ring.
Qed.

Lemma mask_mult_idempotent_witness :
  binary3 [[[1]; [0]]] /\
  mul_mask (mul_mask [[[3; 4; 5]; [6; 7; 8]]] [[[1]; [0]]]) [[[1]; [0]]]
  = mul_mask [[[3; 4; 5]; [6; 7; 8]]] [[[1]; [0]]].
Proof.
  assert (Hb : binary3 [[[1]; [0]]]).
  { unfold binary3. repeat (apply Forall_cons || apply Forall_nil); auto. }
  split; [exact Hb | apply (mask_mult_idempotent _ _ Hb)].
Defined.

(** ** Scoping *)

(** C10: [name_scope] runs the body on the prior stack extended with the
    scope (joined with '/' unless the prior stack is empty), hands that
    stack to the body, passes the body's outcome on (a value or a raised
    exception), and leaves the object with exactly the stack it had before
    entry, whatever the body did to it. *)
Theorem name_scope_restores {A : Type} (scope : string)
    (body : string -> scoped A) (self : Scoping) :
  let entered := entered_stack (_name_stack self) scope in
  fst (name_scope scope body self)
    = fst (body entered {| _name_stack := entered |}) /\
  snd (name_scope scope body self) = self.
Proof.
  destruct self as [prior]. unfold name_scope, entered_stack, set_name_stack.
  cbn [_name_stack].
  destruct (String.eqb prior "") eqn:E; cbn [_name_stack].
  - destruct (body scope {| _name_stack := scope |}) as [o s']. now split.
  - destruct (body (prior ++ "/" ++ scope)%string
                   {| _name_stack := (prior ++ "/" ++ scope)%string |})
      as [o s']. now split.
Qed.

(** The nesting exercised by the module's own demonstration: inside
    'foo', 'bar', 'baz' the stack reads foo/bar/baz, and it is empty again
    once the outermost scope is left, also when the innermost body raises. *)
Lemma name_scope_nested_example :
  name_scope "foo" (fun _ =>
    name_scope "bar" (fun _ =>
      name_scope "baz" (fun v self => (inr v, self))))
    {| _name_stack := "" |}
  = (inr "foo/bar/baz", {| _name_stack := "" |}) /\
  name_scope "foo" (fun _ =>
    name_scope "bar" (fun _ =>
      name_scope "baz" (fun v self =>
        (@inl exn string (OtherError v), set_name_stack self "clobbered"))))
    {| _name_stack := "" |}
  = (inl (OtherError "foo/bar/baz"), {| _name_stack := "" |}).
Proof. split; reflexivity. Qed.

(** ** vector3d_to_quaternion *)

Lemma padded_shape_cons (sh : list nat) : forall a : nat,
  padded_shape (a :: sh)
    (repeat (0%nat, 0%nat) (length sh) ++ [(1%nat, 0%nat)])
  = removelast (a :: sh) ++ [S (last (a :: sh) 0%nat)].
Proof.
  induction sh as [|b sh IH]; intros a.
  - cbn. now rewrite Nat.add_0_r.
  - change (padded_shape (a :: b :: sh)
              (repeat (0%nat, 0%nat) (length (b :: sh)) ++ [(1%nat, 0%nat)]))
      with ((0 + a + 0)%nat ::
            padded_shape (b :: sh)
              (repeat (0%nat, 0%nat) (length sh) ++ [(1%nat, 0%nat)])).
    rewrite IH. cbn [Nat.add]. rewrite Nat.add_0_r. reflexivity.
Qed.

Lemma padded_shape_last (sh : list nat) :
  sh <> [] ->
  padded_shape sh (repeat (0%nat, 0%nat) (length sh - 1) ++ [(1%nat, 0%nat)])
  = removelast sh ++ [S (last sh 0%nat)].
Proof.
  destruct sh as [|a sh]; [congruence|]. intros _.
  cbn [length]. rewrite Nat.sub_succ, Nat.sub_0_r. apply padded_shape_cons.
Qed.

Lemma tf_pad_nd_cons (sh : list nat) : forall (a : nat) (x : nd),
  wf_nd (a :: sh) x ->
  tf_pad_nd (repeat (0%nat, 0%nat) (length sh) ++ [(1%nat, 0%nat)])
            (a :: sh) x
  = prepend_zero (S (length sh)) x.
Proof.
  induction sh as [|b sh IH]; intros a x Hwf;
    (destruct x as [v|xs]; [destruct Hwf|]); destruct Hwf as [_ Hall].
  - cbn. now rewrite map_id, app_nil_r.
  - change (tf_pad_nd
              (repeat (0%nat, 0%nat) (length (b :: sh)) ++ [(1%nat, 0%nat)])
              (a :: b :: sh) (Nd xs))
      with (Nd (repeat (zeros (padded_shape (b :: sh)
                   (repeat (0%nat, 0%nat) (length sh) ++ [(1%nat, 0%nat)]))) 0
                ++ map (tf_pad_nd
                          (repeat (0%nat, 0%nat) (length sh)
                           ++ [(1%nat, 0%nat)]) (b :: sh)) xs
                ++ repeat (zeros (padded_shape (b :: sh)
                   (repeat (0%nat, 0%nat) (length sh) ++ [(1%nat, 0%nat)]))) 0)).
    cbn [repeat app length prepend_zero]. rewrite app_nil_r.
    f_equal. apply map_ext_in. intros y Hy.
    rewrite Forall_forall in Hall. apply IH. now apply Hall.
Qed.

Lemma tf_pad_nd_last (sh : list nat) (x : nd) :
  sh <> [] -> wf_nd sh x ->
  tf_pad_nd (repeat (0%nat, 0%nat) (length sh - 1) ++ [(1%nat, 0%nat)]) sh x
  = prepend_zero (length sh) x.
Proof.
  destruct sh as [|a sh]; [congruence|]. intros _ Hwf.
  cbn [length]. rewrite Nat.sub_succ, Nat.sub_0_r. now apply tf_pad_nd_cons.
Qed.

Lemma shape_last_inr (sh : list nat) (d : nat) :
  shape_last sh = inr d <-> sh <> [] /\ last sh 0%nat = d.
Proof.
  unfold shape_last. destruct sh as [|a sh].
  - split; [discriminate | intros [H _]; congruence].
  - split; [intros H; inversion H; split; [discriminate | reflexivity]
           | intros [_ H]; now rewrite H].
Qed.

(** C9: on a tensor with a last dimension, [vector3d_to_quaternion] raises
    ValueError exactly when that dimension is not 3; when it is 3 it
    returns a tensor whose last dimension is 4 and whose value is the input
    with a zero put in front of every innermost vector. *)
Theorem vector3d_to_quaternion_spec (x : Tensor) :
  wf_tensor x ->
  ((exists msg, vector3d_to_quaternion x = inl (ValueError msg)) <->
   (t_shape x <> [] /\ last (t_shape x) 0%nat <> 3%nat)) /\
  (t_shape x <> [] -> last (t_shape x) 0%nat = 3%nat ->
   vector3d_to_quaternion x =
     inr {| t_shape := removelast (t_shape x) ++ [4%nat];
            t_value := prepend_zero (length (t_shape x)) (t_value x) |}).
Proof.
  intros Hwf. destruct x as [sh v]. unfold wf_tensor in Hwf.
  cbn [t_shape t_value] in *. unfold vector3d_to_quaternion.
  cbn [t_shape t_value]. split.
  - destruct sh as [|a sh].
    + cbn. split; [intros [msg H]; discriminate | intros [H _]; congruence].
    + unfold shape_last.
      destruct (Nat.eqb_spec (last (a :: sh) 0%nat) 3) as [E|E]; cbn [negb].
      * split; [intros [msg H]; discriminate | intros [_ H]; congruence].
      * split; [intros _; split; [discriminate | exact E]
               | intros _; eexists; reflexivity].
  - intros Hne Hlast.
    destruct (proj2 (shape_last_inr sh 3) (conj Hne Hlast)).
    replace (shape_last sh) with (@inr exn nat 3%nat)
      by (symmetry; now apply shape_last_inr).
    cbn [Nat.eqb negb]. unfold tf_pad. cbn [t_shape t_value].
    rewrite padded_shape_last by assumption.
    rewrite tf_pad_nd_last by assumption.
    now rewrite Hlast.
Qed.

Lemma vector3d_to_quaternion_spec_witness :
  vector3d_to_quaternion
    {| t_shape := [1; 3]%nat; t_value := Nd [Nd [Sc 1; Sc 2; Sc 3]] |}
  = inr {| t_shape := [1; 4]%nat;
           t_value := Nd [Nd [Sc 0; Sc 1; Sc 2; Sc 3]] |}.
Proof.
  assert (Hwf : wf_tensor {| t_shape := [1; 3]%nat;
                             t_value := Nd [Nd [Sc 1; Sc 2; Sc 3]] |}).
  { cbn. repeat (split || constructor). }
  apply (proj2 (vector3d_to_quaternion_spec _ Hwf)); [discriminate|reflexivity].
Defined.

(** ** Frame validity *)

Lemma at1_weighted (v w : tensor1) (t : nat) :
  at1 (weighted v w) t = at1 v t * at1 w t.
Proof.
  unfold weighted, at1.
  destruct (Nat.lt_ge_cases t (length v)) as [Ht|Ht].
  - now rewrite nth_tab.
  - rewrite (nth_overflow (tab _ _)) by now rewrite tab_length.
    rewrite (nth_overflow v) by assumption. ring.
Qed.

Lemma frame_all_zero_at3 (real : tensor3) (t j c : nat) :
  frame_all_zero real t -> at3 real j t c = 0.
Proof.
  intros Hz. unfold at3, at2, at1.
  apply (nth_Forall_default (fun v => v = 0)); [|reflexivity].
  apply (nth_Forall_default
           (fun joint => Forall (fun v => v = 0) (nth t joint [])) real []);
    [exact Hz | destruct t; constructor].
Qed.

Lemma zero_sum_length (real : tensor3) : length (zero_sum real) = dim1 real.
Proof. apply tab_length. Qed.

Lemma at1_zero_frames (real : tensor3) (t : nat) :
  (t < dim1 real)%nat ->
  at1 (zero_frames real) t
  = K_cast (K_not_equal (at1 (zero_sum real) t) 0) + K_epsilon.
Proof.
  intros Ht. unfold zero_frames, at1.
  rewrite (nth_indep _ 0 (K_cast (K_not_equal 0 0) + K_epsilon))
    by now rewrite length_map, zero_sum_length.
  now rewrite (map_nth (fun s => K_cast (K_not_equal s 0) + K_epsilon)).
Qed.

Lemma zero_frame_weight (real : tensor3) (t : nat) :
  (t < dim1 real)%nat -> frame_all_zero real t ->
  at1 (zero_frames real) t = K_epsilon.
Proof.
  intros Ht Hz. rewrite at1_zero_frames by assumption.
  unfold zero_sum, at1 at 1. rewrite nth_tab by assumption.
  rewrite Rsum_tab_zero.
  - unfold K_not_equal. destruct (Req_dec_T 0 0); [cbn; lra | congruence].
  - intros j _. apply Rsum_tab_zero. intros c _.
    now apply frame_all_zero_at3.
Qed.

(** C1 (as the code has it): a frame whose real coordinates are all zero
    gets the validity weight K.epsilon() = 1e-7, and its share of every
    frame-weighted term (coordinate reconstruction, distance-matrix
    reconstruction, frame-level critic scores and the frame-level gradient
    norm) is 1e-7 times the frame's unweighted value. *)
Theorem zero_frame_weight_is_epsilon (D : Critic)
    (real gen mask x : tensor3) (t : nat) :
  (t < dim1 real)%nat -> frame_all_zero real t ->
  at1 (zero_frames real) t = K_epsilon /\
  at1 (weighted (rec_frames real gen mask) (zero_frames real)) t
    = at1 (rec_frames real gen mask) t * K_epsilon /\
  at1 (weighted (rec_edm_frames real gen mask) (zero_frames real)) t
    = at1 (rec_edm_frames real gen mask) t * K_epsilon /\
  at1 (weighted (squeeze_last (frame_score_out D x)) (zero_frames real)) t
    = at1 (squeeze_last (frame_score_out D x)) t * K_epsilon /\
  at1 (weighted (grad_sq_frames (frame_score_grad D x)) (zero_frames real)) t
    = at1 (grad_sq_frames (frame_score_grad D x)) t * K_epsilon.
Proof.
  intros Ht Hz. rewrite !at1_weighted, (zero_frame_weight real t Ht Hz).
  repeat split; reflexivity.
Qed.

Lemma zero_frame_weight_is_epsilon_witness :
  at1 (zero_frames [[[0; 0; 0]; [1; 2; 3]]]) 0 = K_epsilon.
Proof.
  refine (proj1 (zero_frame_weight_is_epsilon
                   {| score_out := fun _ => []; label_out := fun _ => [];
                      latent_cond_out := fun _ => [];
                      frame_score_out := fun _ => [];
                      score_grad := fun x => x;
                      frame_score_grad := fun x => x |}
                   [[[0; 0; 0]; [1; 2; 3]]] [[[1; 1; 1]; [1; 2; 3]]]
                   [[[1]; [1]]] [] 0 _ _)).
  - cbn. lia.
  - unfold frame_all_zero. cbn. repeat constructor.
Defined.

(** C1, the claim as worded: the weight of an all-zero frame is not zero,
    and neither is its share of the reconstruction loss.  One joint, one
    frame, real (0,0,0), generated (1,1,1), mask 1: the weight is 1e-7 and
    the frame adds 1e-7 * 1 to [loss_rec]. *)
Lemma zero_frame_weight_not_zero :
  frame_all_zero [[[0; 0; 0]]] 0 /\
  at1 (zero_frames [[[0; 0; 0]]]) 0 <> 0 /\
  at1 (weighted (rec_frames [[[0; 0; 0]]] [[[1; 1; 1]]] [[[1]]])
                (zero_frames [[[0; 0; 0]]])) 0 <> 0 /\
  loss_rec [[[0; 0; 0]]] [[[1; 1; 1]]] [[[1]]] <> 0.
Proof.
  assert (Hz : frame_all_zero [[[0; 0; 0]]] 0).
  { unfold frame_all_zero. cbn. repeat constructor. }
  assert (Hw : at1 (zero_frames [[[0; 0; 0]]]) 0 = K_epsilon).
  { apply zero_frame_weight; [cbn; lia | exact Hz]. }
  assert (Hr : at1 (rec_frames [[[0; 0; 0]]] [[[1; 1; 1]]] [[[1]]]) 0 = 1).
  { unfold rec_frames, mul_mask, Rmean, Rsum, Rsqr, at3, at2, at1.
    cbn. lra. }
  pose proof K_epsilon_pos as Hp.
  assert (Hc : at1 (weighted (rec_frames [[[0; 0; 0]]] [[[1; 1; 1]]] [[[1]]])
                             (zero_frames [[[0; 0; 0]]])) 0 = K_epsilon).
  { rewrite at1_weighted, Hw, Hr. lra. }
  repeat split; try assumption; try lra.
  unfold loss_rec.
  replace (weighted (rec_frames [[[0; 0; 0]]] [[[1; 1; 1]]] [[[1]]])
                    (zero_frames [[[0; 0; 0]]]))
    with [at1 (weighted (rec_frames [[[0; 0; 0]]] [[[1; 1; 1]]] [[[1]]])
                        (zero_frames [[[0; 0; 0]]])) 0]
    by reflexivity.
  rewrite Hc. unfold Rsum. cbn [fold_right]. lra.
Qed.

(** ** Interpolates and gradient penalty *)

Lemma tab3_id (J T C : nat) (x : tensor3) :
  has_shape3 J T C x ->
  tab J (fun j => tab T (fun t => tab C (fun c => at3 x j t c))) = x.
Proof.
  intros [HJ Hall]. subst J. rewrite <- (tab_nth_id x []) at 2.
  apply tab_ext. intros j Hj.
  rewrite Forall_forall in Hall.
  destruct (Hall (nth j x []) (nth_In _ _ Hj)) as [HT Hfr]. subst T.
  rewrite <- (tab_nth_id (nth j x []) []) at 2.
  apply tab_ext. intros t Ht.
  rewrite Forall_forall in Hfr.
  pose proof (Hfr (nth t (nth j x []) []) (nth_In _ _ Ht)) as HC. subst C.
  unfold at3, at2, at1. apply tab_nth_id.
Qed.

Lemma interpolate_one (r g : tensor3) :
  rect3 r -> interpolate 1 r g = r.
Proof.
  intros Hr. unfold interpolate.
  etransitivity; [|apply (tab3_id _ _ _ r Hr)].
  apply tab_ext; intros j _. apply tab_ext; intros t _.
  apply tab_ext; intros c _. ring.
Qed.

Lemma interpolate_zero (r g : tensor3) :
  same_shape3 r g -> interpolate 0 r g = g.
Proof.
  intros Hg. unfold interpolate.
  etransitivity; [|apply (tab3_id _ _ _ g Hg)].
  apply tab_ext; intros j _. apply tab_ext; intros t _.
  apply tab_ext; intros c _. ring.
Qed.

Lemma interpolates_one (alpha real gen : tensor4) :
  Forall rect3 real -> all_alpha alpha (length real) 1 ->
  interpolates alpha real gen = real.
Proof.
  intros Hr Ha. unfold interpolates.
  etransitivity; [|apply (tab_nth_id real [])]. apply tab_ext. intros b Hb.
  rewrite (Ha b Hb). apply interpolate_one.
  rewrite Forall_forall in Hr. apply Hr. now apply nth_In.
Qed.

Lemma interpolates_zero (alpha real gen : tensor4) :
  Forall2 same_shape3 real gen -> all_alpha alpha (length real) 0 ->
  interpolates alpha real gen = gen.
Proof.
  intros Hs Ha. unfold interpolates.
  pose proof (Forall2_length Hs) as Hlen.
  etransitivity; [|apply (tab_nth_id gen [])]. rewrite <- Hlen.
  apply tab_ext. intros b Hb.
  rewrite (Ha b Hb). apply interpolate_zero.
  revert b Hb. clear Ha Hlen. induction Hs as [|r g real gen Hrg Hs IH];
    intros b Hb; [cbn in Hb; lia|].
  destruct b as [|b]; [exact Hrg|]. cbn [nth]. apply IH. cbn in Hb. lia.
Qed.

Lemma penalty_of_norms_unit (D : Critic) (xs : tensor4) :
  penalty_of_norms (norm_grad_mixed D xs)
  = Rmean (map (fun x => Rsqr (sqrt (sum_sq3 (score_grad D x)) - 1)) xs).
Proof.
  unfold penalty_of_norms, norm_grad_mixed, gamma_grads.
  rewrite map_map. f_equal. apply map_ext. intros x. field.
Qed.

Lemma gen_losses_ignore_alpha (cfg : Config) (D : Critic) (inp : LossInputs)
    (a : tensor4) :
  gen_losses_of cfg D (set_alpha inp a) = gen_losses_of cfg D inp /\
  wgan_losses_of cfg D (set_alpha inp a) = wgan_losses_of cfg D inp.
Proof.
  unfold gen_losses_of, wgan_losses_of, _build_loss, set_alpha.
  cbn [real_seq seq_mask gen_seq alpha true_label latent_cond_input
       disc_model_losses gen_model_losses smooth_Qs vae_z].
  destruct (use_pose_vae cfg), (action_cond cfg),
           (0 <? latent_cond_dim cfg)%nat; split; reflexivity.
Qed.

Lemma disc_loss_wgan_entry (cfg : Config) (D : Critic) (inp : LossInputs) :
  od_get (disc_losses_of cfg D inp) "disc_loss_wgan"
  = Some (Rmean (disc_loss_wgan cfg D (alpha inp) (real_seq inp)
                                (gen_seq inp))).
Proof.
  unfold disc_losses_of, _build_loss.
  destruct (0 <? length (disc_model_losses inp))%nat,
           (use_pose_vae cfg), (action_cond cfg),
           (0 <? latent_cond_dim cfg)%nat; reflexivity.
Qed.

(** C2: with every interpolation coefficient 1 the interpolated batch is
    the real batch and the gradient penalty is the batch mean of the squared
    deviation from 1 of the critic's gradient norm at the real samples;
    with every coefficient 0 the same holds at the generated samples.  The
    penalty, scaled by lambda_grads (10 in the base configuration), is a
    summand of [disc_loss_wgan]; the generator and the wgan dictionaries do
    not depend on the interpolation at all. *)
Theorem gradient_penalty_endpoints (cfg : Config) (D : Critic)
    (inp : LossInputs) :
  Forall rect3 (real_seq inp) ->
  Forall2 same_shape3 (real_seq inp) (gen_seq inp) ->
  (forall a, all_alpha a (length (real_seq inp)) 1 ->
     interpolates a (real_seq inp) (gen_seq inp) = real_seq inp /\
     grad_penalty D a (real_seq inp) (gen_seq inp)
     = Rmean (map (fun x => Rsqr (sqrt (sum_sq3 (score_grad D x)) - 1))
                  (real_seq inp))) /\
  (forall a, all_alpha a (length (real_seq inp)) 0 ->
     interpolates a (real_seq inp) (gen_seq inp) = gen_seq inp /\
     grad_penalty D a (real_seq inp) (gen_seq inp)
     = Rmean (map (fun x => Rsqr (sqrt (sum_sq3 (score_grad D x)) - 1))
                  (gen_seq inp))) /\
  (forall a,
     od_get (disc_losses_of cfg D (set_alpha inp a)) "disc_loss_wgan"
     = Some (Rmean (tab (length (gen_seq inp)) (fun b =>
         at1 (loss_score D (gen_seq inp)) b
         - at1 (loss_score D (real_seq inp)) b
         + lambda_grads cfg
           * grad_penalty D a (real_seq inp) (gen_seq inp)))) /\
     gen_losses_of cfg D (set_alpha inp a) = gen_losses_of cfg D inp /\
     wgan_losses_of cfg D (set_alpha inp a) = wgan_losses_of cfg D inp) /\
  (forall pv, lambda_grads (base_config pv) = 10).
Proof.
  intros Hr Hs. repeat split.
  - now apply interpolates_one.
  - unfold grad_penalty. rewrite interpolates_one by assumption.
    apply penalty_of_norms_unit.
  - now apply interpolates_zero.
  - unfold grad_penalty. rewrite interpolates_zero by assumption.
    apply penalty_of_norms_unit.
  - rewrite disc_loss_wgan_entry. unfold disc_loss_wgan, set_alpha.
    cbn [real_seq gen_seq alpha]. unfold loss_score at 1.
    now rewrite length_map.
  - apply gen_losses_ignore_alpha.
  - apply gen_losses_ignore_alpha.
Qed.

Lemma gradient_penalty_endpoints_witness :
  interpolates [[[[1]]]] (real_seq toy_inputs) (gen_seq toy_inputs)
    = real_seq toy_inputs /\
  interpolates [[[[0]]]] (real_seq toy_inputs) (gen_seq toy_inputs)
    = gen_seq toy_inputs.
Proof.
  assert (Hr : Forall rect3 (real_seq toy_inputs)).
  { repeat constructor. }
  assert (Hs : Forall2 same_shape3 (real_seq toy_inputs) (gen_seq toy_inputs)).
  { repeat constructor. }
  destruct (gradient_penalty_endpoints (base_config false) toy_critic
              toy_inputs Hr Hs) as (H1 & H0 & _).
  split.
  - apply H1. intros b Hb. destruct b; [reflexivity | cbn in Hb; lia].
  - apply H0. intros b Hb. destruct b; [reflexivity | cbn in Hb; lia].
Defined.

(** ** Shape-preservation loss: the mask *)

Lemma at2_tab2 (J T : nat) (F : nat -> nat -> R) (i j : nat) :
  (i < J)%nat -> (j < T)%nat ->
  at2 (tab J (fun i => tab T (F i))) i j = F i j.
Proof.
  intros Hi Hj. unfold at2, at1.
  rewrite (nth_tab _ _ i) by assumption. now rewrite (nth_tab _ _ j).
Qed.

Lemma np_triu_ones (J k i j : nat) :
  (i < J)%nat -> (j < J)%nat ->
  at2 (np_triu (np_ones J J) k) i j = if (i + k <=? j)%nat then 1 else 0.
Proof.
  intros Hi Hj. unfold np_triu, np_ones.
  rewrite dim0_tab, dim1_tab by lia.
  rewrite at2_tab2 by assumption.
  destruct (i + k <=? j)%nat; [|reflexivity].
  now rewrite at2_tab2.
Qed.

Lemma shape_mask_entry (J i j : nat) :
  (i < J)%nat -> (j < J)%nat ->
  at2 (shape_mask J) i j = if (j =? S i)%nat then 1 else 0.
Proof.
  intros Hi Hj. unfold shape_mask.
  assert (Hd0 : dim0 (np_triu (np_ones J J) 1) = J).
  { unfold np_triu, np_ones. now rewrite !dim0_tab. }
  assert (Hd1 : dim1 (np_triu (np_ones J J) 1) = J).
  { unfold np_triu, np_ones. rewrite dim0_tab.
    rewrite (dim1_tab J J (fun _ _ => 1)) by lia.
    now rewrite dim1_tab by lia. }
  rewrite Hd0, Hd1, at2_tab2 by assumption.
  rewrite !np_triu_ones by assumption.
  destruct (Nat.eqb_spec j (S i)) as [E|E].
  - subst j. destruct (Nat.leb_spec (i + 1) (S i)); [|lia].
    destruct (Nat.leb_spec (i + 2) (S i)); [lia|]. lra.
  - destruct (Nat.leb_spec (i + 1) j), (Nat.leb_spec (i + 2) j);
      try lia; lra.
Qed.

Lemma edm_dims (x : tensor3) :
  (0 < dim0 x)%nat ->
  dim0 (edm_sample x) = dim0 x /\ dim1 (edm_sample x) = dim0 x /\
  dim2 (edm_sample x) = dim1 x.
Proof.
  intros H. unfold edm_sample. repeat split.
  - apply dim0_tab.
  - now apply dim1_tab.
  - unfold dim2. rewrite (nth_tab _ _ 0%nat) by assumption.
    rewrite (nth_tab _ _ 0%nat) by assumption. apply tab_length.
Qed.

Lemma Rmean_tab_zero (n : nat) (f : nat -> R) :
  (forall t, (t < n)%nat -> f t = 0) -> Rmean (tab n f) = 0.
Proof.
  intros H. unfold Rmean. rewrite Rsum_tab_zero by assumption.
  unfold Rdiv. ring.
Qed.

Lemma shape_term_masked (J : nat) (real gen : tensor3) (i j : nat) :
  dim0 real = J -> dim0 gen = J -> (i < J)%nat -> (j < J)%nat ->
  shape_term (shape_mask J) real gen i j
  = if (j =? S i)%nat then pair_term real gen i j else 0.
Proof.
  intros Hr Hg Hi Hj.
  destruct (edm_dims real) as (Hr0 & Hr1 & _); [lia|].
  destruct (edm_dims gen) as (Hg0 & Hg1 & Hg2); [lia|].
  unfold shape_term, pair_term.
  assert (Hgs2 : dim2 (gen_shape (shape_mask J) gen) = dim2 (edm_sample gen)).
  { unfold gen_shape. unfold dim2 at 1.
    rewrite (nth_tab _ _ 0%nat) by lia. rewrite (nth_tab _ _ 0%nat) by lia.
    apply tab_length. }
  rewrite Hgs2.
  assert (Hrs : at3 (real_shape (shape_mask J) real) i j 0
                = Rmean (nth j (nth i (edm_sample real) []) [])
                  * at2 (shape_mask J) i j).
  { unfold real_shape, at3, at2, at1.
    rewrite (nth_tab _ _ i) by lia. now rewrite (nth_tab _ _ j) by lia. }
  assert (Hgs : forall t, (t < dim2 (edm_sample gen))%nat ->
                at3 (gen_shape (shape_mask J) gen) i j t
                = at3 (edm_sample gen) i j t * at2 (shape_mask J) i j).
  { intros t Ht. unfold gen_shape. now rewrite at3_tab3 by lia. }
  rewrite Hrs, shape_mask_entry by assumption.
  destruct (j =? S i)%nat eqn:E.
  - f_equal. apply tab_ext. intros t Ht.
    rewrite Hgs, shape_mask_entry, E by assumption. f_equal. ring.
  - apply Rmean_tab_zero. intros t Ht.
    rewrite Hgs, shape_mask_entry, E by assumption. unfold Rsqr. ring.
Qed.

Lemma Rsum_tab_single (n k : nat) (f : nat -> R) :
  Rsum (tab n (fun j => if (j =? k)%nat then f j else 0))
  = if (k <? n)%nat then f k else 0.
Proof.
  induction n as [|n IH]; [reflexivity|].
  rewrite tab_S, Rsum_app, IH. unfold Rsum. cbn [fold_right].
  destruct (Nat.ltb_spec k n), (Nat.ltb_spec k (S n)),
           (Nat.eqb_spec n k); try lia; subst; lra.
Qed.

Lemma loss_shape_superdiagonal (J : nat) (real gen : tensor3) :
  dim0 real = J -> dim0 gen = J ->
  loss_shape J real gen
  = Rsum (tab (J - 1) (fun i => pair_term real gen i (S i))).
Proof.
  intros Hr Hg. unfold loss_shape.
  assert (Hd0 : dim0 (gen_shape (shape_mask J) gen) = J).
  { unfold gen_shape. rewrite dim0_tab. unfold edm_sample.
    now rewrite dim0_tab. }
  rewrite Hd0. destruct J as [|J']; [reflexivity|].
  destruct (edm_dims gen) as (Hg0 & Hg1 & _); [lia|].
  assert (Hd1 : dim1 (gen_shape (shape_mask (S J')) gen) = S J').
  { unfold gen_shape. rewrite dim1_tab by lia. lia. }
  rewrite Hd1.
  transitivity (Rsum (tab (S J') (fun i =>
    if (S i <? S J')%nat then pair_term real gen i (S i) else 0))).
  - f_equal. apply tab_ext. intros i Hi.
    rewrite <- (Rsum_tab_single (S J') (S i) (pair_term real gen i)).
    f_equal. apply tab_ext. intros j Hj.
    now apply shape_term_masked.
  - rewrite tab_S, Rsum_app. cbn [Nat.sub]. rewrite Nat.sub_0_r.
    destruct (Nat.ltb_spec (S J') (S J')); [lia|].
    unfold Rsum at 2. cbn [fold_right]. rewrite !Rplus_0_r.
    f_equal. apply tab_ext. intros i Hi.
    destruct (Nat.ltb_spec (S i) (S J')); [reflexivity | lia].
Qed.

(** C4 (as the code has it): the mask [triu(ones, 1) - triu(ones, 2)] is 1
    on the first superdiagonal and 0 elsewhere, so a pair of joints (i,j)
    adds its term to the shape loss exactly when j = i + 1; the diagonal,
    the lower triangle and the pairs with j > i + 1 add nothing, and the
    loss is the sum of the J - 1 terms of the pairs (i, i+1). *)
Theorem shape_mask_first_superdiagonal (J : nat) (real gen : tensor3) :
  dim0 real = J -> dim0 gen = J ->
  (forall i j, (i < J)%nat -> (j < J)%nat ->
     at2 (shape_mask J) i j = (if (j =? S i)%nat then 1 else 0) /\
     shape_term (shape_mask J) real gen i j
     = if (j =? S i)%nat then pair_term real gen i j else 0) /\
  loss_shape J real gen
  = Rsum (tab (J - 1) (fun i => pair_term real gen i (S i))).
Proof.
  intros Hr Hg. split.
  - intros i j Hi Hj. split.
    + now apply shape_mask_entry.
    + now apply shape_term_masked.
  - now apply loss_shape_superdiagonal.
Qed.

Lemma shape_mask_first_superdiagonal_witness :
  loss_shape 3 line_pose bent_pose
  = Rsum (tab 2 (fun i => pair_term line_pose bent_pose i (S i))).
Proof.
  apply (proj2 (shape_mask_first_superdiagonal 3 line_pose bent_pose
                  eq_refl eq_refl)).
Defined.

Lemma sqrt_eps_lt (a b : R) :
  0 <= a -> a < b -> sqrt (a + K_epsilon) < sqrt (b + K_epsilon).
Proof.
  intros Ha Hab. pose proof K_epsilon_pos. apply sqrt_lt_1_alt. lra.
Qed.

(** C4, the claim as worded: with three joints the pair (0,2) lies in the
    strict upper triangle, yet its mask entry is 0 and it adds nothing: the
    two poses differ in the distance of that pair and the loss is 0. *)
Lemma shape_mask_not_strict_upper_triangle :
  at2 (shape_mask 3) 0 2 = 0 /\
  at3 (edm_sample line_pose) 0 2 0 <> at3 (edm_sample bent_pose) 0 2 0 /\
  loss_shape 3 line_pose bent_pose = 0.
Proof.
  split; [now rewrite shape_mask_entry by lia|]. split.
  - rewrite !at3_edm by (cbn; lia).
    assert (H : sqrt (2 + K_epsilon) < sqrt (4 + K_epsilon))
      by (apply sqrt_eps_lt; lra).
    replace (Rsum (tab (dim2 line_pose) (fun c =>
               Rsqr (at3 line_pose 2 0 c - at3 line_pose 0 0 c)))) with 4
      by (unfold Rsum, Rsqr, at3, at2, at1; cbn; lra).
    replace (Rsum (tab (dim2 bent_pose) (fun c =>
               Rsqr (at3 bent_pose 2 0 c - at3 bent_pose 0 0 c)))) with 2
      by (unfold Rsum, Rsqr, at3, at2, at1; cbn; lra).
    lra.
  - rewrite loss_shape_superdiagonal by reflexivity.
    apply Rsum_tab_zero. intros i Hi. unfold pair_term.
    apply Rmean_tab_zero. intros t Ht.
    destruct (edm_dims bent_pose) as (_ & _ & Hd2); [cbn; lia|].
    rewrite Hd2 in Ht. change (dim1 bent_pose) with 1%nat in Ht.
    assert (t = 0)%nat by lia. subst t.
    assert (Hi' : (i < 2)%nat) by exact Hi.
    replace (Rmean (nth (S i) (nth i (edm_sample line_pose) []) []))
      with (at3 (edm_sample line_pose) i (S i) 0).
    + rewrite !at3_edm by (cbn; lia).
      replace (Rsum (tab (dim2 line_pose) (fun c =>
                 Rsqr (at3 line_pose (S i) 0 c - at3 line_pose i 0 c))))
        with (Rsum (tab (dim2 bent_pose) (fun c =>
                 Rsqr (at3 bent_pose (S i) 0 c - at3 bent_pose i 0 c)))).
      * unfold Rsqr. ring.
      * destruct i as [|[|i]]; [| |lia];
          unfold Rsum, Rsqr, at3, at2, at1; cbn; lra.
    + destruct i as [|[|i]]; [| |lia];
        unfold Rmean, Rsum, at3, at2, at1; cbn; field.
Qed.

(** ** Shape-preservation loss: the two roles *)









(** ** Ordered dictionaries and the entry points' keys *)

Lemma od_keys_set_fresh {V : Type} (d : odict V) (k : string) (v : V) :
  ~ In k (od_keys d) -> od_keys (od_set d k v) = od_keys d ++ [k].
Proof.
  induction d as [|[k' v'] d IH]; intros Hk; [reflexivity|].
  cbn [od_set]. destruct (String.eqb_spec k' k) as [E|E].
  - exfalso. apply Hk. now left.
  - cbn [od_keys map fst app]. f_equal. apply IH.
    intros Hin. apply Hk. now right.
Qed.

Lemma od_keys_fold {V : Type} (pairs : list (string * V)) :
  forall d : odict V,
  NoDup (od_keys d ++ map fst pairs) ->
  od_keys (fold_left (fun d kv => od_set d (fst kv) (snd kv)) pairs d)
  = od_keys d ++ map fst pairs.
Proof.
  induction pairs as [|[k v] pairs IH]; intros d Hnd.
  - cbn. now rewrite app_nil_r.
  - cbn [fold_left fst snd map] in *.
    assert (Hfresh : ~ In k (od_keys d)).
    { apply NoDup_remove_2 in Hnd. intros Hin. apply Hnd.
      apply in_or_app. now left. }
    rewrite IH; rewrite od_keys_set_fresh by assumption.
    + now rewrite <- app_assoc.
    + now rewrite <- app_assoc.
Qed.

Lemma map_fst_combine {A B : Type} (l : list A) :
  forall l' : list B, length l = length l' -> map fst (combine l l') = l.
Proof.
  induction l as [|a l IH]; intros [|b l'] H; try discriminate; [reflexivity|].
  cbn. f_equal. apply IH. now injection H.
Qed.

Lemma OrderedDict_keys {V : Type} (keys : list string) (vals : list V) :
  NoDup keys -> length keys = length vals ->
  od_keys (OrderedDict (combine keys vals)) = keys.
Proof.
  intros Hnd Hlen. unfold OrderedDict.
  rewrite od_keys_fold; cbn [od_keys map app];
    now rewrite map_fst_combine.
Qed.

Lemma nodupb_sound (l : list string) : nodupb l = true -> NoDup l.
Proof.
  induction l as [|x l IH]; intros H; [constructor|].
  cbn in H. apply andb_prop in H. destruct H as [Hx Hl].
  constructor; [|now apply IH].
  intros Hin. apply negb_true_iff in Hx.
  assert (existsb (String.eqb x) l = true); [|congruence].
  apply existsb_exists. exists x. split; [assumption | apply String.eqb_refl].
Qed.

Lemma od_values_length {V : Type} (d : odict V) :
  length (od_values d) = length (od_keys d).
Proof. unfold od_values, od_keys. now rewrite !length_map. Qed.

Lemma wgan_losses_keys (cfg : Config) (D : Critic) (inp : LossInputs) :
  od_keys (wgan_losses_of cfg D inp) = wgan_keys cfg.
Proof.
  unfold wgan_losses_of, _build_loss, wgan_keys.
  destruct (use_pose_vae cfg), (action_cond cfg),
           (0 <? latent_cond_dim cfg)%nat; reflexivity.
Qed.

Lemma disc_losses_keys (cfg : Config) (D : Critic) (inp : LossInputs) :
  od_keys (disc_losses_of cfg D inp) = disc_keys cfg inp.
Proof.
  unfold disc_losses_of, _build_loss, disc_keys.
  destruct (0 <? length (disc_model_losses inp))%nat,
           (use_pose_vae cfg), (action_cond cfg),
           (0 <? latent_cond_dim cfg)%nat; reflexivity.
Qed.

Lemma gen_losses_keys (cfg : Config) (D : Critic) (inp : LossInputs) :
  od_keys (gen_losses_of cfg D inp) = gen_keys cfg inp.
Proof.
  unfold gen_losses_of, _build_loss, gen_keys.
  destruct (0 <? length (gen_model_losses inp))%nat,
           (use_pose_vae cfg), (action_cond cfg),
           (0 <? latent_cond_dim cfg)%nat, (coherence_loss cfg),
           (displacement_loss cfg), (shape_loss cfg), (smoothing_loss cfg);
    reflexivity.
Qed.

Lemma disc_side_nodup (cfg : Config) (inp : LossInputs)
    (prefix : string -> string) :
  prefix = train_key \/ prefix = val_key ->
  NoDup (map prefix (wgan_keys cfg ++ disc_keys cfg inp)).
Proof.
  intros Hp. apply nodupb_sound. unfold wgan_keys, disc_keys.
  destruct Hp as [-> | ->];
    destruct (0 <? length (disc_model_losses inp))%nat,
             (use_pose_vae cfg), (action_cond cfg),
             (0 <? latent_cond_dim cfg)%nat; reflexivity.
Qed.

Lemma gen_side_nodup (cfg : Config) (inp : LossInputs) :
  NoDup (map train_key (gen_keys cfg inp)) /\
  NoDup ((map val_key (gen_keys cfg inp) ++ opt_key (use_pose_vae cfg) "vae_z")
         ++ ["gen_outputs"]).
Proof.
  split; apply nodupb_sound; unfold gen_keys;
    destruct (0 <? length (gen_model_losses inp))%nat,
             (use_pose_vae cfg), (action_cond cfg),
             (0 <? latent_cond_dim cfg)%nat, (coherence_loss cfg),
             (displacement_loss cfg), (shape_loss cfg), (smoothing_loss cfg);
    reflexivity.
Qed.

Lemma disc_train_keys (cfg : Config) (D : Critic) (inp : LossInputs) :
  od_keys (disc_train cfg D inp)
  = map train_key (wgan_keys cfg ++ disc_keys cfg inp).
Proof.
  unfold disc_train, disc_train_f.
  rewrite wgan_losses_keys, disc_losses_keys.
  apply OrderedDict_keys.
  - apply disc_side_nodup. now left.
  - rewrite length_map, !length_app, !od_values_length.
    now rewrite wgan_losses_keys, disc_losses_keys.
Qed.

Lemma disc_eval_keys (cfg : Config) (D : Critic) (inp : LossInputs) :
  od_keys (disc_eval cfg D inp)
  = map val_key (wgan_keys cfg ++ disc_keys cfg inp).
Proof.
  unfold disc_eval, disc_eval_f, disc_train_f.
  rewrite wgan_losses_keys, disc_losses_keys.
  apply OrderedDict_keys.
  - apply disc_side_nodup. now right.
  - rewrite length_map, !length_app, !od_values_length.
    now rewrite wgan_losses_keys, disc_losses_keys.
Qed.

Lemma gen_train_keys (cfg : Config) (D : Critic) (inp : LossInputs) :
  od_keys (gen_train cfg D inp) = map train_key (gen_keys cfg inp).
Proof.
  unfold gen_train, gen_train_f. rewrite gen_losses_keys.
  apply OrderedDict_keys.
  - apply gen_side_nodup.
  - rewrite length_map, od_values_length. now rewrite gen_losses_keys.
Qed.

Lemma gen_eval_keys (cfg : Config) (D : Critic) (inp : LossInputs) :
  od_keys (gen_eval cfg D inp)
  = (map val_key (gen_keys cfg inp) ++ opt_key (use_pose_vae cfg) "vae_z")
    ++ ["gen_outputs"].
Proof.
  unfold gen_eval, gen_eval_f. rewrite gen_losses_keys.
  replace (if use_pose_vae cfg
           then map val_key (gen_keys cfg inp) ++ ["vae_z"]
           else map val_key (gen_keys cfg inp))
    with (map val_key (gen_keys cfg inp) ++ opt_key (use_pose_vae cfg) "vae_z")
    by (destruct (use_pose_vae cfg); cbn [opt_key];
        [reflexivity | apply app_nil_r]).
  apply OrderedDict_keys.
  - apply gen_side_nodup.
  - rewrite !length_app, !length_map.
    destruct (use_pose_vae cfg); cbn [opt_key length];
      rewrite ?length_app, !length_map, od_values_length, gen_losses_keys;
      cbn [length]; lia.
Qed.

(** C6 (as the code has it): the discriminator entry points report the
    wgan names ([loss_real], [loss_fake] and, with the pose sub-encoder,
    the two frame losses) followed by the enabled discriminator losses;
    the generator entry points report the enabled generator losses only,
    without [loss_real] and [loss_fake]; train calls prefix every name with
    [train/], eval calls with [val/]; [gen_eval] then appends the
    unprefixed keys [vae_z] (with the pose sub-encoder) and [gen_outputs].
    The order is the dictionaries' insertion order. *)
Theorem entry_point_keys (cfg : Config) (D : Critic) (inp : LossInputs) :
  od_keys (disc_train cfg D inp)
    = map train_key (od_keys (wgan_losses_of cfg D inp)
                     ++ od_keys (disc_losses_of cfg D inp)) /\
  od_keys (disc_eval cfg D inp)
    = map val_key (od_keys (wgan_losses_of cfg D inp)
                   ++ od_keys (disc_losses_of cfg D inp)) /\
  od_keys (gen_train cfg D inp)
    = map train_key (od_keys (gen_losses_of cfg D inp)) /\
  od_keys (gen_eval cfg D inp)
    = map val_key (od_keys (gen_losses_of cfg D inp))
      ++ opt_key (use_pose_vae cfg) "vae_z" ++ ["gen_outputs"] /\
  od_keys (wgan_losses_of cfg D inp) = wgan_keys cfg /\
  od_keys (disc_losses_of cfg D inp) = disc_keys cfg inp /\
  od_keys (gen_losses_of cfg D inp) = gen_keys cfg inp.
Proof.
  rewrite disc_train_keys, disc_eval_keys, gen_train_keys, gen_eval_keys.
  rewrite wgan_losses_keys, disc_losses_keys, gen_losses_keys.
  rewrite <- app_assoc. repeat split; reflexivity.
Qed.

(** C6, the claim as worded: in the base configuration [gen_train] reports
    no [train/loss_real], and [gen_eval] reports the key [gen_outputs],
    which carries no [val/] prefix. *)
Lemma gen_entry_points_break_key_union :
  ~ In "train/loss_real"
       (od_keys (gen_train (base_config false) toy_critic toy_inputs)) /\
  In "gen_outputs"
     (od_keys (gen_eval (base_config false) toy_critic toy_inputs)) /\
  String.prefix "val/" "gen_outputs" = false.
Proof.
  rewrite gen_train_keys, gen_eval_keys. repeat split.
  - cbn. intros H.
    repeat (destruct H as [H|H]; [discriminate H|]). exact H.
  - apply in_or_app. right. now left.
Qed.

(** ** The pose sub-encoder's skip connections *)


Lemma ceil_div_1 (n : nat) : ceil_div n 1 = n.
Proof. unfold ceil_div. rewrite Nat.div_1_r. lia. Qed.









(** * Further properties of the code *)

(** ** The distance-matrix operator *)

Lemma sum_sq_nonneg (n : nat) (f : nat -> R) :
  0 <= Rsum (tab n (fun c => Rsqr (f c))).
Proof. apply Rsum_tab_nonneg. intros c _. apply Rle_0_sqr. Qed.

(** X1: no entry of the distance matrix falls below sqrt(epsilon); in
    particular no entry is zero, whatever the coordinates. *)
Theorem edm_entries_at_least_sqrt_epsilon (x : tensor3) (i j t : nat) :
  (i < dim0 x)%nat -> (j < dim0 x)%nat -> (t < dim1 x)%nat ->
  sqrt K_epsilon <= at3 (edm_sample x) i j t /\
  0 < at3 (edm_sample x) i j t.
Proof.
  intros Hi Hj Ht. rewrite at3_edm by assumption.
  pose proof K_epsilon_pos as Hp.
  pose proof (sum_sq_nonneg (dim2 x)
                (fun c => at3 x j t c - at3 x i t c)) as Hs.
  split.
  - apply sqrt_le_1_alt. lra.
  - apply sqrt_lt_R0. lra.
Qed.

Lemma edm_entries_at_least_sqrt_epsilon_witness :
  sqrt K_epsilon <= at3 (edm_sample line_pose) 0 2 0 /\
  0 < at3 (edm_sample line_pose) 0 2 0.
Proof.
  apply (edm_entries_at_least_sqrt_epsilon line_pose 0 2 0); cbn; lia.
Defined.


(** ** Frame validity *)

(** X3: the validity weight of a frame is epsilon when the sum of the
    frame's real coordinates is zero and 1 + epsilon otherwise, so it is
    never zero; the test is on the sum, so a frame whose non-zero
    coordinates cancel is weighted like an all-zero frame. *)
Theorem zero_frames_two_values (real : tensor3) (t : nat) :
  (t < dim1 real)%nat ->
  (at1 (zero_sum real) t = 0 -> at1 (zero_frames real) t = K_epsilon) /\
  (at1 (zero_sum real) t <> 0 -> at1 (zero_frames real) t = 1 + K_epsilon) /\
  0 < at1 (zero_frames real) t /\
  (~ frame_all_zero [[[1; -1; 0]]] 0 /\
   at1 (zero_frames [[[1; -1; 0]]]) 0 = K_epsilon).
Proof.
  intros Ht. pose proof K_epsilon_pos as Hp.
  rewrite at1_zero_frames by assumption. unfold K_not_equal.
  repeat split.
  - intros H0. destruct (Req_dec_T _ 0); [cbn; lra | contradiction].
  - intros H0. destruct (Req_dec_T _ 0); [contradiction | cbn; lra].
  - destruct (Req_dec_T _ 0); cbn; lra.
  - intros H. unfold frame_all_zero in H. inversion H as [|? ? H1 _]; subst.
    cbn in H1. inversion H1 as [|? ? H2 _]; subst. lra.
  - rewrite at1_zero_frames by (cbn; lia). unfold K_not_equal.
    destruct (Req_dec_T _ 0) as [_|E]; [cbn; lra|].
    exfalso. apply E. unfold zero_sum, Rsum, at3, at2, at1. cbn. lra.
Qed.

Lemma zero_frames_two_values_witness :
  0 < at1 (zero_frames line_pose) 0.
Proof.
  apply (zero_frames_two_values line_pose 0). cbn. lia.
Defined.

(** ** Reconstruction losses *)

Lemma Rmean_nonneg (l : list R) : Forall (fun v => 0 <= v) l -> 0 <= Rmean l.
Proof.
  intros H. unfold Rmean. destruct l as [|a l].
  - unfold Rsum, Rdiv. cbn. lra.
  - apply Rmult_le_pos; [now apply Rsum_nonneg|].
    apply Rlt_le, Rinv_0_lt_compat, lt_0_INR. cbn. lia.
Qed.

Lemma Rmean_tab_nonneg (n : nat) (f : nat -> R) :
  (forall i, (i < n)%nat -> 0 <= f i) -> 0 <= Rmean (tab n f).
Proof.
  intros H. apply Rmean_nonneg. apply Forall_forall. intros v Hv.
  unfold tab in Hv. apply in_map_iff in Hv. destruct Hv as [i [<- Hi]].
  apply in_seq in Hi. apply H. lia.
Qed.

Lemma zero_frames_nonneg (real : tensor3) (t : nat) :
  0 <= at1 (zero_frames real) t.
Proof.
  destruct (Nat.lt_ge_cases t (dim1 real)) as [Ht|Ht].
  - rewrite at1_zero_frames by assumption. pose proof K_epsilon_pos.
    destruct (K_not_equal _ 0); cbn; lra.
  - unfold at1. rewrite nth_overflow; [lra|].
    unfold zero_frames. now rewrite length_map, zero_sum_length.
Qed.

Lemma weighted_sum_nonneg (v : tensor1) (real : tensor3) :
  (forall t, 0 <= at1 v t) -> 0 <= Rsum (weighted v (zero_frames real)).
Proof.
  intros Hv. unfold weighted. apply Rsum_tab_nonneg. intros t _.
  apply Rmult_le_pos; [apply Hv | apply zero_frames_nonneg].
Qed.

Lemma at1_tab_nonneg (n : nat) (f : nat -> R) (t : nat) :
  (forall i, (i < n)%nat -> 0 <= f i) -> 0 <= at1 (tab n f) t.
Proof.
  intros H. unfold at1. destruct (Nat.lt_ge_cases t n) as [Ht|Ht].
  - rewrite nth_tab by assumption. now apply H.
  - rewrite nth_overflow by now rewrite tab_length. lra.
Qed.

Lemma weighted_zero (v w : tensor1) :
  (forall t, at1 v t = 0) -> Rsum (weighted v w) = 0.
Proof.
  intros Hv. unfold weighted. apply Rsum_tab_zero. intros t _.
  rewrite Hv. ring.
Qed.

Lemma at1_tab_zero (n : nat) (f : nat -> R) (t : nat) :
  (forall i, (i < n)%nat -> f i = 0) -> at1 (tab n f) t = 0.
Proof.
  intros H. unfold at1. destruct (Nat.lt_ge_cases t n) as [Ht|Ht].
  - rewrite nth_tab by assumption. now apply H.
  - now rewrite nth_overflow by now rewrite tab_length.
Qed.

(** X4: both reconstruction losses of a sample are non-negative, and both
    are zero when the generated sequence equals the real one. *)
Theorem reconstruction_losses_nonneg_and_zero_on_equal
    (real gen mask : tensor3) :
  0 <= loss_rec real gen mask /\
  0 <= loss_rec_edm real gen mask /\
  loss_rec real real mask = 0 /\
  loss_rec_edm real real mask = 0.
Proof.
  unfold loss_rec, loss_rec_edm. repeat split.
  - apply weighted_sum_nonneg. intros t. unfold rec_frames.
    apply at1_tab_nonneg. intros t' _. apply Rsum_tab_nonneg. intros j _.
    apply Rmean_tab_nonneg. intros c _. apply Rle_0_sqr.
  - apply weighted_sum_nonneg. intros t. unfold rec_edm_frames.
    apply at1_tab_nonneg. intros t' _. apply Rsum_tab_nonneg. intros i _.
    apply Rsum_tab_nonneg. intros j _. apply Rle_0_sqr.
  - apply weighted_zero. intros t. unfold rec_frames.
    apply at1_tab_zero. intros t' _. apply Rsum_tab_zero. intros j _.
    apply Rmean_tab_zero. intros c _. unfold Rsqr. ring.
  - apply weighted_zero. intros t. unfold rec_edm_frames.
    apply at1_tab_zero. intros t' _. apply Rsum_tab_zero. intros i _.
    apply Rsum_tab_zero. intros j _. unfold Rsqr. ring.
Qed.

(** X5: the reconstruction losses read the generated sequence only where
    the mask is non-zero: two generated sequences of one shape that agree
    at every position with a non-zero mask entry give the same losses. *)
Theorem reconstruction_losses_ignore_masked_values
    (real gen gen' mask : tensor3) :
  dim0 gen = dim0 gen' -> dim1 gen = dim1 gen' -> dim2 gen = dim2 gen' ->
  (forall j t c, at3 mask j t 0 <> 0 -> at3 gen j t c = at3 gen' j t c) ->
  loss_rec real gen mask = loss_rec real gen' mask /\
  loss_rec_edm real gen mask = loss_rec_edm real gen' mask.
Proof.
  intros H0 H1 H2 Hag.
  assert (Hm : mul_mask gen mask = mul_mask gen' mask).
  { unfold mul_mask. rewrite H0, H1, H2.
    apply tab_ext; intros j _. apply tab_ext; intros t _.
    apply tab_ext; intros c _.
    destruct (Req_dec_T (at3 mask j t 0) 0) as [E|E].
    - rewrite E. ring.
    - now rewrite (Hag j t c E). }
  unfold loss_rec, loss_rec_edm, rec_frames, rec_edm_frames.
  now rewrite Hm.
Qed.

Lemma reconstruction_losses_ignore_masked_values_witness :
  loss_rec [[[1; 2; 3]; [4; 5; 6]]] [[[1; 1; 1]; [7; 7; 7]]] [[[1]; [0]]]
  = loss_rec [[[1; 2; 3]; [4; 5; 6]]] [[[1; 1; 1]; [9; 8; 7]]] [[[1]; [0]]].
Proof.
  refine (proj1 (reconstruction_losses_ignore_masked_values
                   [[[1; 2; 3]; [4; 5; 6]]] [[[1; 1; 1]; [7; 7; 7]]]
                   [[[1; 1; 1]; [9; 8; 7]]] [[[1]; [0]]]
                   eq_refl eq_refl eq_refl _)).
  intros j t c Hm.
  destruct j as [|j];
    [|exfalso; apply Hm; unfold at3, at2, at1; cbn; now destruct j, t].
  destruct t as [|[|t]].
  - reflexivity.
  - exfalso. apply Hm. reflexivity.
  - exfalso. apply Hm. unfold at3, at2, at1. cbn. now destruct t.
Defined.

(** ** The WGAN entries of the dictionaries *)

Lemma Rmean_opp (l : list R) : Rmean (map Ropp l) = - Rmean l.
Proof.
  unfold Rmean. rewrite length_map.
  assert (H : Rsum (map Ropp l) = - Rsum l).
  { unfold Rsum. induction l as [|a l IH]; cbn [map fold_right]; lra. }
  rewrite H. unfold Rdiv. ring.
Qed.

Lemma wgan_entries (cfg : Config) (D : Critic) (inp : LossInputs) :
  od_get (wgan_losses_of cfg D inp) "loss_real"
    = Some (Rmean (loss_score D (real_seq inp))) /\
  od_get (wgan_losses_of cfg D inp) "loss_fake"
    = Some (Rmean (loss_score D (gen_seq inp))) /\
  od_get (gen_losses_of cfg D inp) "gen_loss_wgan"
    = Some (Rmean (gen_loss_wgan D (gen_seq inp))).
Proof.
  unfold wgan_losses_of, gen_losses_of, _build_loss.
  destruct (0 <? length (gen_model_losses inp))%nat,
           (use_pose_vae cfg), (action_cond cfg),
           (0 <? latent_cond_dim cfg)%nat, (coherence_loss cfg),
           (displacement_loss cfg), (shape_loss cfg), (smoothing_loss cfg);
    repeat split; reflexivity.
Qed.

(** X6: in every configuration the generator's reported [gen_loss_wgan]
    is the negative of the reported [loss_fake]. *)
Theorem gen_loss_wgan_is_minus_loss_fake (cfg : Config) (D : Critic)
    (inp : LossInputs) :
  exists lf,
    od_get (wgan_losses_of cfg D inp) "loss_fake" = Some lf /\
    od_get (gen_losses_of cfg D inp) "gen_loss_wgan" = Some (- lf).
Proof.
  destruct (wgan_entries cfg D inp) as (_ & Hf & Hg).
  eexists. split; [exact Hf|]. rewrite Hg. unfold gen_loss_wgan.
  now rewrite Rmean_opp.
Qed.

Lemma Rsum_tab_at1 (l : list R) : Rsum (tab (length l) (at1 l)) = Rsum l.
Proof. unfold at1. now rewrite tab_nth_id. Qed.

Lemma Rsum_tab_affine (n : nat) (f g : nat -> R) (c : R) :
  Rsum (tab n (fun b => f b - g b + c))
  = Rsum (tab n f) - Rsum (tab n g) + INR n * c.
Proof.
  induction n as [|n IH]; [cbn; lra|].
  rewrite !tab_S, !Rsum_app, IH, S_INR. unfold Rsum. cbn [fold_right]. lra.
Qed.

(** X7: on a non-empty batch with as many generated as real samples, the
    reported [disc_loss_wgan] is [loss_fake - loss_real] plus lambda_grads
    times the gradient penalty. *)
Theorem disc_loss_wgan_decomposition (cfg : Config) (D : Critic)
    (inp : LossInputs) :
  (0 < length (real_seq inp))%nat ->
  length (gen_seq inp) = length (real_seq inp) ->
  exists lr lf,
    od_get (wgan_losses_of cfg D inp) "loss_real" = Some lr /\
    od_get (wgan_losses_of cfg D inp) "loss_fake" = Some lf /\
    od_get (disc_losses_of cfg D inp) "disc_loss_wgan"
    = Some (lf - lr + lambda_grads cfg
                      * grad_penalty D (alpha inp) (real_seq inp)
                                     (gen_seq inp)).
Proof.
  intros Hn Hlen.
  destruct (wgan_entries cfg D inp) as (Hr & Hf & _).
  do 2 eexists. split; [exact Hr|]. split; [exact Hf|].
  rewrite disc_loss_wgan_entry. f_equal.
  unfold disc_loss_wgan.
  set (lf := loss_score D (gen_seq inp)).
  set (lr := loss_score D (real_seq inp)).
  set (c := lambda_grads cfg * _).
  assert (Lf : length lf = length (real_seq inp))
    by (unfold lf, loss_score; now rewrite length_map).
  assert (Lr : length lr = length (real_seq inp))
    by (unfold lr, loss_score; now rewrite length_map).
  unfold Rmean. rewrite tab_length.
  replace (Rsum (tab (length lf) (fun b => at1 lf b - at1 lr b + c)))
    with (Rsum lf - Rsum lr + INR (length lf) * c).
  - rewrite Lf, Lr. field. apply not_0_INR. lia.
  - rewrite Rsum_tab_affine, (Rsum_tab_at1 lf).
    rewrite <- (Rsum_tab_at1 lr), Lr, <- Lf. reflexivity.
Qed.

Lemma disc_loss_wgan_decomposition_witness :
  exists lr lf,
    od_get (wgan_losses_of (base_config false) toy_critic toy_inputs)
           "loss_real" = Some lr /\
    od_get (wgan_losses_of (base_config false) toy_critic toy_inputs)
           "loss_fake" = Some lf /\
    od_get (disc_losses_of (base_config false) toy_critic toy_inputs)
           "disc_loss_wgan"
    = Some (lf - lr + lambda_grads (base_config false)
                      * grad_penalty toy_critic (alpha toy_inputs)
                          (real_seq toy_inputs) (gen_seq toy_inputs)).
Proof.
  apply (disc_loss_wgan_decomposition (base_config false) toy_critic
           toy_inputs); cbn; lia.
Defined.

(** ** What the entry points return *)

Lemma od_fold_fresh {V : Type} (pairs : list (string * V)) :
  forall d : odict V,
  NoDup (od_keys d ++ map fst pairs) ->
  fold_left (fun d kv => od_set d (fst kv) (snd kv)) pairs d = d ++ pairs.
Proof.
  induction pairs as [|[k v] pairs IH]; intros d Hnd.
  - cbn. now rewrite app_nil_r.
  - cbn [fold_left fst snd map] in *.
    assert (Hfresh : ~ In k (od_keys d)).
    { apply NoDup_remove_2 in Hnd. intros Hin. apply Hnd.
      apply in_or_app. now left. }
    assert (Hset : od_set d k v = d ++ [(k, v)]).
    { clear -Hfresh. induction d as [|[k' v'] d IHd]; [reflexivity|].
      cbn [od_set]. destruct (String.eqb_spec k' k) as [E|E].
      - exfalso. apply Hfresh. now left.
      - cbn [app]. f_equal. apply IHd. intros Hin. apply Hfresh. now right. }
    rewrite IH; rewrite Hset.
    + now rewrite <- app_assoc.
    + unfold od_keys. rewrite map_app. cbn [map fst].
      now rewrite <- app_assoc.
Qed.

Lemma OrderedDict_nodup {V : Type} (pairs : list (string * V)) :
  NoDup (map fst pairs) -> OrderedDict pairs = pairs.
Proof. intros H. unfold OrderedDict. now rewrite od_fold_fresh. Qed.

Lemma combine_rekey {V W : Type} (f : string -> string) (g : V -> W)
    (d : odict V) :
  combine (map f (od_keys d)) (map g (od_values d)) = rekey f g d.
Proof.
  unfold od_keys, od_values, rekey.
  induction d as [|[k v] d IH]; [reflexivity|]. cbn. now rewrite IH.
Qed.

Lemma od_keys_app {V : Type} (d1 d2 : odict V) :
  od_keys (d1 ++ d2) = od_keys d1 ++ od_keys d2.
Proof. apply map_app. Qed.

Lemma od_values_app {V : Type} (d1 d2 : odict V) :
  od_values (d1 ++ d2) = od_values d1 ++ od_values d2.
Proof. apply map_app. Qed.

Lemma od_keys_rekey {V W : Type} (f : string -> string) (g : V -> W)
    (d : odict V) :
  od_keys (rekey f g d) = map f (od_keys d).
Proof. unfold od_keys, rekey. rewrite !map_map. reflexivity. Qed.

Lemma entry_points_entries (cfg : Config)
    (D : Critic) (inp : LossInputs) :
  disc_train cfg D inp
    = rekey train_key (fun v => v)
            (wgan_losses_of cfg D inp ++ disc_losses_of cfg D inp) /\
  disc_eval cfg D inp
    = rekey val_key (fun v => v)
            (wgan_losses_of cfg D inp ++ disc_losses_of cfg D inp) /\
  gen_train cfg D inp
    = rekey train_key (fun v => v) (gen_losses_of cfg D inp).
Proof.
  unfold disc_train, disc_eval, disc_eval_f, disc_train_f, gen_train,
    gen_train_f.
  rewrite <- !od_keys_app, <- !od_values_app.
  rewrite <- (map_id (od_values (wgan_losses_of cfg D inp
                                 ++ disc_losses_of cfg D inp))).
  rewrite <- (map_id (od_values (gen_losses_of cfg D inp))).
  rewrite !combine_rekey. repeat split; apply OrderedDict_nodup.
  - change (map fst ?d) with (od_keys d). rewrite od_keys_rekey, od_keys_app.
    rewrite wgan_losses_keys, disc_losses_keys.
    apply disc_side_nodup. now left.
  - change (map fst ?d) with (od_keys d). rewrite od_keys_rekey, od_keys_app.
    rewrite wgan_losses_keys, disc_losses_keys.
    apply disc_side_nodup. now right.
  - change (map fst ?d) with (od_keys d). rewrite od_keys_rekey.
    rewrite gen_losses_keys. apply gen_side_nodup.
Qed.

Lemma gen_eval_entries (cfg : Config)
    (D : Critic) (inp : LossInputs) :
  gen_eval cfg D inp
  = rekey val_key FScalar (gen_losses_of cfg D inp)
    ++ (if use_pose_vae cfg then [("vae_z", FLatent (vae_z inp))] else [])
    ++ [("gen_outputs", FSeq (gen_seq inp))].
Proof.
  unfold gen_eval, gen_eval_f.
  assert (Hc : forall (A B : Type) (l1 l2 : list A) (m1 m2 : list B),
             length l1 = length m1 ->
             combine (l1 ++ l2) (m1 ++ m2) = combine l1 m1 ++ combine l2 m2).
  { intros A B l1. induction l1 as [|a l1 IH]; intros l2 [|b m1] m2 H;
      try discriminate; [reflexivity|]. cbn. f_equal. apply IH.
    now injection H. }
  assert (Hlen : length (map val_key (od_keys (gen_losses_of cfg D inp)))
                 = length (map FScalar (od_values (gen_losses_of cfg D inp))))
    by now rewrite !length_map, od_values_length.
  pose proof (gen_side_nodup cfg inp) as [_ Hnd].
  rewrite <- (gen_losses_keys cfg D inp) in Hnd.
  destruct (use_pose_vae cfg); cbn [opt_key] in Hnd.
  - rewrite !Hc by (rewrite ?length_app, ?length_map, ?od_values_length;
                    cbn [length]; reflexivity || lia).
    rewrite combine_rekey. cbn [combine]. rewrite app_assoc.
    apply OrderedDict_nodup.
    rewrite !map_app. change (map fst (rekey ?f ?g ?d))
      with (od_keys (rekey f g d)).
    rewrite od_keys_rekey. exact Hnd.
  - rewrite app_nil_r in Hnd.
    rewrite !Hc by assumption. rewrite combine_rekey. cbn [combine app].
    apply OrderedDict_nodup.
    rewrite !map_app. change (map fst (rekey ?f ?g ?d))
      with (od_keys (rekey f g d)).
    rewrite od_keys_rekey. exact Hnd.
Qed.

(** X8: the discriminator and the generator train entry points return
    exactly the entries of their loss dictionaries, in order, with the
    values untouched and each key prefixed by [train/] (or [val/] for
    [disc_eval]): the keys and the values, taken from [keys()] and from the
    fetched list separately, stay aligned. *)
Theorem train_entry_points_return_the_dictionaries (cfg : Config)
    (D : Critic) (inp : LossInputs) :
  disc_train cfg D inp
    = rekey train_key (fun v => v)
            (wgan_losses_of cfg D inp ++ disc_losses_of cfg D inp) /\
  disc_eval cfg D inp
    = rekey val_key (fun v => v)
            (wgan_losses_of cfg D inp ++ disc_losses_of cfg D inp) /\
  gen_train cfg D inp
    = rekey train_key (fun v => v) (gen_losses_of cfg D inp).
Proof. exact (entry_points_entries cfg D inp). Qed.

(** X9: [gen_eval] returns the generator losses under [val/] keys, then
    the encoder latent under [vae_z] when the pose sub-encoder is active,
    then the generated batch under [gen_outputs]. *)
Theorem gen_eval_returns_losses_latent_and_output (cfg : Config)
    (D : Critic) (inp : LossInputs) :
  gen_eval cfg D inp
  = rekey val_key FScalar (gen_losses_of cfg D inp)
    ++ (if use_pose_vae cfg then [("vae_z", FLatent (vae_z inp))] else [])
    ++ [("gen_outputs", FSeq (gen_seq inp))].
Proof. exact (gen_eval_entries cfg D inp). Qed.

(** ** The keys the training script reads (train.py) *)







Lemma train_keys_nodup (cfg : Config) (inp_d inp_g : LossInputs) :
  NoDup (map train_key (wgan_keys cfg ++ disc_keys cfg inp_d)
         ++ map train_key (gen_keys cfg inp_g)).
Proof.
  apply nodupb_sound. unfold wgan_keys, disc_keys, gen_keys.
  destruct (0 <? length (disc_model_losses inp_d))%nat,
           (0 <? length (gen_model_losses inp_g))%nat,
           (use_pose_vae cfg), (action_cond cfg),
           (0 <? latent_cond_dim cfg)%nat, (coherence_loss cfg),
           (displacement_loss cfg), (shape_loss cfg), (smoothing_loss cfg);
    reflexivity.
Qed.

(** X11: merging the generator's report into the discriminator's, as the
    training script does for its log, loses nothing: no key of one report
    is a key of the other, so the log is the discriminator entries followed
    by the generator entries. *)
Theorem train_logs_keep_every_loss (cfg : Config) (D D' : Critic)
    (inp_d inp_g : LossInputs) (disc_losses gen_losses : odict R) :
  od_keys disc_losses = od_keys (disc_train cfg D inp_d) ->
  od_keys gen_losses = od_keys (gen_train cfg D' inp_g) ->
  train_logs disc_losses gen_losses = disc_losses ++ gen_losses.
Proof.
  intros Hd Hg. unfold train_logs, od_update. apply od_fold_fresh.
  change (map fst gen_losses) with (od_keys gen_losses).
  rewrite Hd, Hg, disc_train_keys, gen_train_keys.
  apply train_keys_nodup.
Qed.

Lemma train_logs_keep_every_loss_witness :
  train_logs (disc_train (base_config false) toy_critic toy_inputs)
             (gen_train (base_config false) toy_critic toy_inputs)
  = disc_train (base_config false) toy_critic toy_inputs
    ++ gen_train (base_config false) toy_critic toy_inputs.
Proof.
  apply (train_logs_keep_every_loss (base_config false) toy_critic
           toy_critic toy_inputs toy_inputs); reflexivity.
Defined.

(** ** The layer graph: input stage, output stage, critic outputs *)

Lemma broadcast_same (sh : list nat) : broadcast_shapes sh sh = Some sh.
Proof.
  induction sh as [|a sh IH]; [reflexivity|].
  cbn. now rewrite IH, Nat.eqb_refl.
Qed.

Lemma seq_fex_block_shape (x : ktensor) (nb : nat) (s2 i : nat) (h w c : nat) :
  kshape x = Some [h; w; c] ->
  let blk := ("generator/seq_fex/block_" ++ fmt_d i)%string in
  kshape (KActivation Relu (blk ++ "/relu_out")
            (KAdd (blk ++ "/add")
               (KConv2D nb 1 (2%nat, s2) (blk ++ "/shortcut") x)
               (_conv_block x nb 8 3 (2%nat, s2) i 0 "generator/seq_fex"
                            KConv2D)))
  = Some [ceil_div h 2; ceil_div w s2; nb].
Proof.
  intros Hx. cbn zeta. unfold _conv_block.
  change (str_contains "generator" "generator/seq_fex") with true.
  cbn [kshape]. rewrite Hx. cbn [kshape]. rewrite !ceil_div_1.
  apply broadcast_same.
Qed.

Lemma ceil_div_2_bounds (h : nat) :
  ((1 < h)%nat -> (ceil_div h 2 < h)%nat) /\
  ((h <= 1)%nat -> (ceil_div h 2 <= 1)%nat).
Proof.
  unfold ceil_div. split; intros H.
  - apply Nat.Div0.div_lt_upper_bound. lia.
  - destruct h as [|[|h]]; [cbn; lia | cbn; lia | lia].
Qed.

Lemma seq_fex_loop_spec (cfg : Config) (nh s2 : nat) (fuel : nat) :
  forall (x : ktensor) (i h w c : nat) (x' : ktensor) (i' : nat),
  kshape x = Some [h; w; c] ->
  ((h - 1) + (3 - i) <= fuel)%nat ->
  seq_fex_loop fuel cfg nh (2%nat, s2) x i = (x', i') ->
  (i <= i')%nat /\ (3 <= i')%nat /\
  (exists h' w' c', kshape x' = Some [h'; w'; c'] /\
                    (time_pres_emb cfg = true -> (h' <= 1)%nat)) /\
  (time_pres_emb cfg = false -> i' = Nat.max i 3).
Proof.
  induction fuel as [|fuel IH]; intros x i h w c x' i' Hx Hm Hl.
  - cbn in Hl. injection Hl as <- <-.
    repeat split; try lia.
    exists h, w, c. split; [exact Hx | intros _; lia].
  - cbn [seq_fex_loop] in Hl. rewrite Hx in Hl.
    destruct (((1 <? h)%nat && time_pres_emb cfg) || (i <? 3)%nat) eqn:Hc.
    + pose proof (seq_fex_block_shape x (nh * ((i + 1) / 2 + 1)) s2 i h w c Hx)
        as Hb. cbn zeta in Hb.
      destruct (ceil_div_2_bounds h) as [B1 B2].
      assert (Hm' : ((ceil_div h 2 - 1) + (3 - S i) <= fuel)%nat).
      { apply orb_true_iff in Hc. destruct Hc as [Hc|Hc].
        - apply andb_true_iff in Hc. destruct Hc as [Hc _].
          apply Nat.ltb_lt in Hc. specialize (B1 Hc). lia.
        - apply Nat.ltb_lt in Hc.
          destruct (Nat.lt_ge_cases 1 h) as [Hh|Hh].
          + specialize (B1 Hh). lia.
          + specialize (B2 Hh). lia. }
      destruct (IH _ _ _ _ _ _ _ Hb Hm' Hl) as (I1 & I2 & I3 & I4).
      repeat split; try lia; [exact I3|].
      intros Ht. rewrite (I4 Ht). rewrite Ht, andb_false_r in Hc.
      cbn [orb] in Hc. apply Nat.ltb_lt in Hc. lia.
    + injection Hl as <- <-.
      apply orb_false_iff in Hc. destruct Hc as [Hc1 Hc2].
      apply Nat.ltb_ge in Hc2.
      repeat split; try lia.
      exists h, w, c. split; [exact Hx|]. intros Ht.
      rewrite Ht, andb_true_r in Hc1. apply Nat.ltb_ge in Hc1. lia.
Qed.

Lemma masked_input_shape (J T : nat) :
  kshape (KMultiply "generator/mask_mult"
            (KInput "real_seq" [J; T; 3%nat])
            (KInput "seq_mask" [J; T; 1%nat]))
  = Some [J; T; 3%nat].
Proof. cbn. now rewrite !Nat.eqb_refl. Qed.

Lemma get_gen_inputs (cfg : Config) :
  _get_tensor (gen_inputs cfg) "real_seq"
    = Some (KInput "real_seq" [njoints cfg; seq_len_val cfg; 3%nat]) /\
  _get_tensor (gen_inputs cfg) "seq_mask"
    = Some (KInput "seq_mask" [njoints cfg; seq_len_val cfg; 1%nat]) /\
  ((0 <? latent_cond_dim cfg)%nat = true ->
   _get_tensor (gen_inputs cfg) "latent_cond_input"
    = Some (KInput "latent_cond_input" [latent_cond_dim cfg])).
Proof.
  unfold gen_inputs. destruct (0 <? latent_cond_dim cfg)%nat;
    repeat split; try reflexivity; discriminate.
Qed.

(** X12: without the pose sub-encoder the input stage always ends its
    block loop by the loop condition: at least three blocks are built,
    exactly three without the time-preserving embedding, and with it the
    loop goes on until the first dimension of the feature map is 1 (the
    bound on iterations in the embedding, first dimension plus three, is
    never what stops it). *)
Theorem feature_extraction_loop_stops (cfg : Config) (unfold_out : nat) :
  use_pose_vae cfg = false ->
  exists x st,
    _proc_gen_inputs cfg unfold_out (init_state cfg) (gen_inputs cfg)
      = Some (x, st) /\
    (3 <= nblocks st)%nat /\
    (time_pres_emb cfg = false -> nblocks st = 3%nat) /\
    (time_pres_emb cfg = true -> latent_cond_dim cfg = 0%nat ->
     exists h w c, kshape x = Some [h; w; c] /\ (h <= 1)%nat).
Proof.
  intros Hvae. unfold _proc_gen_inputs.
  destruct (get_gen_inputs cfg) as (Hr & Hm & Hl).
  rewrite Hr, Hm, Hvae.
  set (x0 := KMultiply _ _ _).
  assert (Hx0 : kshape x0 = Some [njoints cfg; seq_len_val cfg; 3%nat])
    by apply masked_input_shape.
  assert (Hgo : forall (x1 : ktensor) (st0 : ModelState) (d : nat),
    kshape x1 = Some [d; seq_len_val cfg; 3%nat] ->
    exists x st,
      (let '(x3, st1) :=
         let '(x3, i) :=
           seq_fex_loop
             match kshape x1 with
             | Some (d0 :: _) => d0 + 3
             | _ => 3
             end cfg (if time_pres_emb cfg then 32%nat else 128%nat)
             (if time_pres_emb cfg then (2%nat, 1%nat) else (2%nat, 2%nat))
             x1 0 in
         (if negb (time_pres_emb cfg)
          then KMeanPool "generator/seq_fex/mean_pool" x3 else x3,
          {| enc_layers := enc_layers st0; st_vae_z := st_vae_z st0;
             st_vae_gen_z := st_vae_gen_z st0; nblocks := i;
             unfolded_joints := unfolded_joints st0 |}) in
       if (0 <? latent_cond_dim cfg)%nat
       then match _get_tensor (gen_inputs cfg) "latent_cond_input" with
            | Some x_lat => Some (KConcatenate "generator/cat_in" x3 x_lat, st1)
            | None => None
            end
       else Some (x3, st1)) = Some (x, st) /\
      (3 <= nblocks st)%nat /\
      (time_pres_emb cfg = false -> nblocks st = 3%nat) /\
      (time_pres_emb cfg = true -> latent_cond_dim cfg = 0%nat ->
       exists h w c, kshape x = Some [h; w; c] /\ (h <= 1)%nat)).
  { intros x1 st0 d Hx1. rewrite Hx1.
    set (s2 := if time_pres_emb cfg then 1%nat else 2%nat).
    replace (if time_pres_emb cfg then (2%nat, 1%nat) else (2%nat, 2%nat))
      with (2%nat, s2) by (unfold s2; now destruct (time_pres_emb cfg)).
    destruct (seq_fex_loop (d + 3) cfg _ (2%nat, s2) x1 0) as [x3 i] eqn:Hloop.
    apply (seq_fex_loop_spec cfg _ s2 (d + 3) x1 0 d _ _ x3 i Hx1) in Hloop;
      [|lia].
    destruct Hloop as (_ & H3 & (h' & w' & c' & Hs & Hh) & Hmax).
    destruct (0 <? latent_cond_dim cfg)%nat eqn:Hlat.
    - rewrite (Hl eq_refl). do 2 eexists. split; [reflexivity|].
      cbn [nblocks]. split; [exact H3|]. split; [exact Hmax|].
      intros _ H0. rewrite H0 in Hlat. discriminate Hlat.
    - do 2 eexists. split; [reflexivity|].
      cbn [nblocks]. split; [exact H3|]. split; [exact Hmax|].
      intros Ht _. rewrite Ht. cbn [negb].
      exists h', w', c'. split; [exact Hs | now apply Hh]. }
  destruct (unfold_joints cfg).
  - apply (Hgo _ _ unfold_out). cbn [kshape]. now rewrite Hx0.
  - apply (Hgo _ _ (njoints cfg)). exact Hx0.
Qed.




Lemma feature_extraction_loop_stops_witness :
  exists x st,
    _proc_gen_inputs (base_config false) 25 (init_state (base_config false))
                     (gen_inputs (base_config false)) = Some (x, st) /\
    nblocks st = 3%nat.
Proof.
  destruct (feature_extraction_loop_stops (base_config false) 25 eq_refl)
    as (x & st & H & _ & H3 & _).
  exists x, st. split; [exact H | exact (H3 eq_refl)].
Defined.

(** X13: looking a critic output up by a fragment of its name finds the
    intended tensor in every configuration: ['score_out'] gives the
    sequence-level score although the name of the per-frame score contains
    it too, because the sequence-level score comes first in the list (on
    the reversed list the same lookup gives the per-frame score); a name
    whose output the configuration does not build is not found. *)
Theorem get_tensor_on_critic_outputs (cfg : Config) (disc_input x : ktensor) :
  let outs := _proc_disc_outputs cfg disc_input x in
  option_map kname (_get_tensor outs "score_out")
    = Some "discriminator/score_out" /\
  option_map kname (_get_tensor outs "discriminator/score_out")
    = Some "discriminator/score_out" /\
  option_map kname (_get_tensor outs "label_out")
    = (if action_cond cfg then Some "discriminator/label_out" else None) /\
  option_map kname (_get_tensor outs "latent_cond_out")
    = (if (0 <? latent_cond_dim cfg)%nat
       then Some "discriminator/latent_cond_out" else None) /\
  option_map kname (_get_tensor outs "frame_score_out")
    = (if use_pose_vae cfg
       then Some "discriminator/frame_score_out" else None) /\
  (use_pose_vae cfg = true ->
   option_map kname (_get_tensor (rev outs) "score_out")
     = Some "discriminator/frame_score_out").
Proof.
  cbn zeta. unfold _proc_disc_outputs.
  destruct (action_cond cfg), (0 <? latent_cond_dim cfg)%nat,
           (use_pose_vae cfg).
  all: repeat split; try reflexivity; try discriminate.
Qed.

(** ** Scoping: nesting and string addition *)

(** X15: name scopes nest through [scope_wrapper]: a wrapped function
    called from inside another wrapped function runs on the stack extended
    by both names, outer first, and when the outer call is over, by return
    or by exception, the object has the stack it had before. *)
Theorem scope_wrapper_nests_and_restores {A : Type} (outer inner : string)
    (func : scoped A) (self : Scoping) :
  let entered :=
    entered_stack (entered_stack (_name_stack self) outer) inner in
  fst (scope_wrapper outer (scope_wrapper inner func) self)
    = fst (func {| _name_stack := entered |}) /\
  snd (scope_wrapper outer (scope_wrapper inner func) self) = self.
Proof.
  destruct self as [prior].
  unfold scope_wrapper, name_scope, entered_stack, set_name_stack.
  cbn [_name_stack].
  destruct (String.eqb prior "") eqn:E1; cbn [_name_stack].
  - destruct (String.eqb outer "") eqn:E2; cbn [_name_stack];
      match goal with |- context [func ?s] => destruct (func s) as [o s'] end;
      now split.
  - destruct (String.eqb (prior ++ "/" ++ outer) "") eqn:E2;
      cbn [_name_stack];
      match goal with |- context [func ?s] => destruct (func s) as [o s'] end;
      now split.
Qed.

(** X16: [scope + name] is the stack that entering [name] would give when
    the stack is not empty; on the empty stack the two differ: the sum is
    ['/' + name] while entering gives [name]. *)
Theorem scoping_add_against_name_scope (self : Scoping) (name : string) :
  let yielded := fst (name_scope name (fun v s => (@inr exn string v, s)) self) in
  (_name_stack self <> "" -> yielded = inr (Scoping_add self name)) /\
  (_name_stack self = "" ->
   yielded = inr name /\ Scoping_add self name = ("/" ++ name)%string).
Proof.
  destruct self as [prior]. unfold name_scope, Scoping_add, Scoping_str,
    set_name_stack. cbn [_name_stack fst].
  split.
  - intros H. destruct (String.eqb_spec prior ""); [contradiction|].
    reflexivity.
  - intros ->. cbn. now split.
Qed.

(** ** Quaternions *)

Lemma drop_prepend (sh : list nat) : forall (a : nat) (x : nd),
  wf_nd (a :: sh) x ->
  drop_first_last (S (length sh)) (prepend_zero (S (length sh)) x) = x.
Proof.
  induction sh as [|b sh IH]; intros a x Hwf;
    (destruct x as [v|xs]; [destruct Hwf|]); destruct Hwf as [_ Hall].
  - reflexivity.
  - cbn [length]. cbn [length] in IH.
    change (prepend_zero (S (S (length sh))) (Nd xs))
      with (Nd (map (prepend_zero (S (length sh))) xs)).
    change (drop_first_last (S (S (length sh)))
              (Nd (map (prepend_zero (S (length sh))) xs)))
      with (Nd (map (drop_first_last (S (length sh)))
                    (map (prepend_zero (S (length sh))) xs))).
    f_equal. rewrite map_map. rewrite <- (map_id xs) at 2.
    apply map_ext_in. intros y Hy. rewrite Forall_forall in Hall.
    apply (IH b). now apply Hall.
Qed.

(** X17: taking the vector part of the quaternion built from a tensor of
    3D vectors gives the tensor back, shape and value. *)
Theorem quaternion_vector3d_round_trip (x q : Tensor) :
  wf_tensor x ->
  vector3d_to_quaternion x = inr q ->
  quaternion_to_vector3d q = inr x.
Proof.
  intros Hwf Hq. destruct x as [sh v]. unfold wf_tensor in Hwf.
  cbn [t_shape t_value] in Hwf.
  unfold vector3d_to_quaternion in Hq. cbn [t_shape t_value] in Hq.
  destruct sh as [|a sh]; [discriminate Hq|].
  unfold shape_last in Hq.
  destruct (Nat.eqb_spec (last (a :: sh) 0%nat) 3) as [E|E];
    cbn [negb] in Hq; [|discriminate Hq].
  injection Hq as <-. unfold tf_pad, quaternion_to_vector3d.
  cbn [t_shape t_value].
  rewrite padded_shape_last by discriminate.
  rewrite Nat.sub_0_r, tf_pad_nd_cons by assumption.
  destruct (removelast (a :: sh) ++ [S (last (a :: sh) 0%nat)]) eqn:Hs.
  - destruct (removelast (a :: sh)); discriminate Hs.
  - rewrite <- Hs. f_equal. f_equal.
    + rewrite removelast_last, last_last. cbn [Nat.sub].
      rewrite Nat.sub_0_r. symmetry. apply app_removelast_last. discriminate.
    + assert (Hlen : length (removelast (a :: sh)
                             ++ [S (last (a :: sh) 0%nat)])
                     = S (length sh)).
      { pose proof (app_removelast_last 0%nat
                      (l := a :: sh) ltac:(discriminate)) as Hl.
        apply (f_equal (@length nat)) in Hl.
        rewrite length_app in *. cbn [length] in *. lia. }
      rewrite Hlen. now apply (drop_prepend sh a).
Qed.

Lemma quaternion_vector3d_round_trip_witness :
  quaternion_to_vector3d
    {| t_shape := [1; 4]%nat; t_value := Nd [Nd [Sc 0; Sc 1; Sc 2; Sc 3]] |}
  = inr {| t_shape := [1; 3]%nat; t_value := Nd [Nd [Sc 1; Sc 2; Sc 3]] |}.
Proof.
  apply (quaternion_vector3d_round_trip
           {| t_shape := [1; 3]%nat; t_value := Nd [Nd [Sc 1; Sc 2; Sc 3]] |}).
  - cbn. repeat (split || constructor).
  - reflexivity.
Defined.

Ltac list_ring :=
  repeat (apply (f_equal2 (@cons _)); [try ring|]); try reflexivity.

Ltac quat_unfold :=
  unfold rotate_vector_by_quaternion, quat_to_rotmat, matvec3, transpose3,
    quaternion_conjugate, tf_cross, vadd, zeros_like, tab, Rsum,
    at2, at1;
  cbn [map seq length tl nth fold_right].

(** X18: rotating a 3D vector by a quaternion is multiplying it by the
    rotation matrix of that quaternion: the two functions normalise the
    quaternion in the same way and agree exactly. *)
Theorem rotate_is_rotmat_product (a b c d x y z : R) :
  rotate_vector_by_quaternion [a; b; c; d] [x; y; z]
  = matvec3 (quat_to_rotmat [a; b; c; d]) [x; y; z].
Proof.
  quat_unfold. set (n := quat_norm [a; b; c; d]).
  unfold Rdiv. list_ring.
Qed.

(** X19: a quaternion whose vector part is zero, the zero quaternion
    included, leaves every vector where it is: the epsilon under the root
    of the norm keeps the division defined. *)
Theorem rotate_by_scalar_quaternion_is_identity (w x y z : R) :
  rotate_vector_by_quaternion [w; 0; 0; 0] [x; y; z] = [x; y; z] /\
  quat_to_rotmat [w; 0; 0; 0] = [[1; 0; 0]; [0; 1; 0]; [0; 0; 1]].
Proof.
  split; quat_unfold; set (n := quat_norm [w; 0; 0; 0]);
    unfold Rdiv; list_ring.
Qed.

Lemma quat_norm_opp (q : tensor1) : quat_norm (map Ropp q) = quat_norm q.
Proof.
  unfold quat_norm. do 2 f_equal. unfold Rsum.
  induction q as [|a q IH]; [reflexivity|].
  cbn [map fold_right]. rewrite IH. unfold Rsqr. ring.
Qed.

Lemma quat_norm_conjugate (a b c d : R) :
  quat_norm (quaternion_conjugate [a; b; c; d]) = quat_norm [a; b; c; d].
Proof.
  unfold quat_norm, quaternion_conjugate, tab, Rsum, at1.
  cbn [map seq nth fold_right]. f_equal. unfold Rsqr. ring.
Qed.

(** X20: a quaternion and its negative give the same rotation matrix, and
    the conjugate gives the transposed matrix; conjugating twice gives the
    quaternion back. *)
Theorem quat_to_rotmat_sign_and_conjugate (a b c d : R) :
  quat_to_rotmat (map Ropp [a; b; c; d]) = quat_to_rotmat [a; b; c; d] /\
  quat_to_rotmat (quaternion_conjugate [a; b; c; d])
    = transpose3 (quat_to_rotmat [a; b; c; d]) /\
  quaternion_conjugate (quaternion_conjugate [a; b; c; d]) = [a; b; c; d].
Proof.
  repeat split.
  - unfold quat_to_rotmat. rewrite quat_norm_opp.
    set (n := quat_norm [a; b; c; d]). unfold at1.
    cbn [map nth]. unfold Rdiv. list_ring.
  - unfold quat_to_rotmat. rewrite quat_norm_conjugate.
    set (n := quat_norm [a; b; c; d]).
    unfold transpose3, quaternion_conjugate, tab, at2, at1.
    cbn [map seq nth]. unfold Rdiv. list_ring.
  - unfold quaternion_conjugate, tab, at1. cbn [map seq nth].
    list_ring.
Qed.

(** ** Normalisation (data_input.py) *)




(** ** Batch pre-computation (data_input.py) *)

Lemma py_slice_length {A : Type} (rows : list A) (a b : nat) :
  length (py_slice rows a b) = Nat.min (b - a) (length rows - a).
Proof. unfold py_slice. now rewrite length_firstn, length_skipn. Qed.

Lemma nth_py_slice {A : Type} (rows : list A) (a b k : nat) (d : A) :
  (k < b - a)%nat -> nth k (py_slice rows a b) d = nth (a + k) rows d.
Proof.
  intros Hk. unfold py_slice. rewrite nth_firstn.
  destruct (Nat.ltb_spec k (b - a)); [|lia]. apply nth_skipn.
Qed.

(** X22: [pre_comp_batches] returns [len // batch_size + 1] batches, and
    every batch has exactly [batch_size] rows, when the batch size is
    positive, there is a row, and the random draw returns as many indices
    as it is asked. *)
Theorem pre_comp_batches_sizes {A : Type} (batch_size : nat) (rows : list A)
    (rand : nat -> nat -> list nat) (d : A) :
  (0 < batch_size)%nat -> (0 < length rows)%nat ->
  (forall s k, length (rand s k) = k) ->
  length (pre_comp_batches batch_size rows rand d)
    = (length rows / batch_size + 1)%nat /\
  Forall (fun batch => length batch = batch_size)
         (pre_comp_batches batch_size rows rand d).
Proof.
  intros Hbs _ Hrand. unfold pre_comp_batches. split; [apply tab_length|].
  apply Forall_forall. intros batch Hin. unfold tab in Hin.
  apply in_map_iff in Hin. destruct Hin as [s [<- _]].
  pose proof (py_slice_length rows (s * batch_size)
                (Nat.min (s * batch_size + batch_size) (length rows))) as Hl.
  destruct (Nat.ltb_spec
              (length (py_slice rows (s * batch_size)
                 (Nat.min (s * batch_size + batch_size) (length rows))))
              batch_size) as [Hlt|Hge].
  - rewrite length_app, length_map, Hrand. lia.
  - lia.
Qed.

Lemma pre_comp_batches_sizes_witness :
  length (pre_comp_batches 2 [10; 20; 30]%nat
            (fun _ k => repeat 0%nat k) 0%nat) = 2%nat /\
  Forall (fun batch => length batch = 2%nat)
         (pre_comp_batches 2 [10; 20; 30]%nat
            (fun _ k => repeat 0%nat k) 0%nat).
Proof.
  apply (pre_comp_batches_sizes 2 [10; 20; 30]%nat
           (fun _ k => repeat 0%nat k) 0%nat).
  - lia.
  - cbn. lia.
  - intros s k. apply repeat_length.
Defined.

Lemma nth_batch {A : Type} (batch_size : nat) (rows : list A)
    (rand : nat -> nat -> list nat) (d : A) (s : nat) :
  (s <= length rows / batch_size)%nat ->
  nth s (pre_comp_batches batch_size rows rand d) []
  = let slice_start := (s * batch_size)%nat in
    let slice_len := Nat.min (slice_start + batch_size) (length rows) in
    let batch := py_slice rows slice_start slice_len in
    if (length batch <? batch_size)%nat
    then batch ++ map (fun i => nth i rows d)
                      (rand s (batch_size - length batch)%nat)
    else batch.
Proof.
  intros Hs. unfold pre_comp_batches. now rewrite nth_tab by lia.
Qed.

(** X23: no row is lost or moved: row [i] of the data is row
    [i mod batch_size] of batch [i // batch_size]. *)
Theorem pre_comp_batches_keep_rows_in_place {A : Type} (batch_size : nat)
    (rows : list A) (rand : nat -> nat -> list nat) (d : A) (i : nat) :
  (0 < batch_size)%nat -> (i < length rows)%nat ->
  nth (i mod batch_size)
      (nth (i / batch_size) (pre_comp_batches batch_size rows rand d) []) d
  = nth i rows d.
Proof.
  intros Hbs Hi.
  rewrite nth_batch by (apply Nat.Div0.div_le_mono; lia). cbn zeta.
  pose proof (Nat.div_mod_eq i batch_size) as Hdm.
  pose proof (Nat.mod_upper_bound i batch_size ltac:(lia)) as Hmod.
  set (start := (i / batch_size * batch_size)%nat) in *.
  assert (Hstart : (start + i mod batch_size = i)%nat)
    by (unfold start; lia).
  set (slen := Nat.min (start + batch_size) (length rows)).
  assert (Hk : (i mod batch_size < slen - start)%nat) by (unfold slen; lia).
  assert (Hlen : (i mod batch_size < length (py_slice rows start slen))%nat).
  { rewrite py_slice_length. lia. }
  destruct (length (py_slice rows start slen) <? batch_size)%nat.
  - rewrite app_nth1 by assumption.
    rewrite nth_py_slice by assumption. now rewrite Hstart.
  - rewrite nth_py_slice by assumption. now rewrite Hstart.
Qed.

Lemma pre_comp_batches_keep_rows_in_place_witness :
  nth (2 mod 2)
      (nth (2 / 2) (pre_comp_batches 2 [10; 20; 30]%nat
                      (fun _ k => repeat 0%nat k) 0%nat) []) 0%nat
  = nth 2 [10; 20; 30]%nat 0%nat.
Proof.
  apply (pre_comp_batches_keep_rows_in_place 2 [10; 20; 30]%nat
           (fun _ k => repeat 0%nat k) 0%nat 2); cbn; lia.
Defined.

(** X24: when the batch size divides the number of rows, the last batch
    holds no row of its own: it consists of resampled rows only. *)
Theorem pre_comp_batches_extra_batch {A : Type} (batch_size : nat)
    (rows : list A) (rand : nat -> nat -> list nat) (d : A) :
  (0 < batch_size)%nat -> (0 < length rows)%nat ->
  (length rows mod batch_size = 0)%nat ->
  nth (length rows / batch_size)
      (pre_comp_batches batch_size rows rand d) []
  = map (fun i => nth i rows d)
        (rand (length rows / batch_size)%nat batch_size).
Proof.
  intros Hbs Hn Hmod. rewrite nth_batch by lia. cbn zeta.
  pose proof (Nat.div_mod_eq (length rows) batch_size) as Hdm.
  assert (Hstart : (length rows / batch_size * batch_size = length rows)%nat)
    by lia.
  rewrite Hstart.
  assert (Hl : length (py_slice rows (length rows)
                 (Nat.min (length rows + batch_size) (length rows))) = 0%nat)
    by (rewrite py_slice_length; lia).
  rewrite Hl. destruct (Nat.ltb_spec 0 batch_size); [|lia].
  rewrite Nat.sub_0_r.
  destruct (py_slice rows (length rows)
              (Nat.min (length rows + batch_size) (length rows)));
    [reflexivity | discriminate Hl].
Qed.

Lemma pre_comp_batches_extra_batch_witness :
  nth (2 / 2) (pre_comp_batches 2 [10; 20]%nat
                 (fun _ k => repeat 0%nat k) 0%nat) []
  = map (fun i => nth i [10; 20]%nat 0%nat) (repeat 0%nat 2).
Proof.
  apply (pre_comp_batches_extra_batch 2 [10; 20]%nat
           (fun _ k => repeat 0%nat k) 0%nat); cbn; lia.
Defined.

(** ** The training script's schedule (train.py) *)

(** X25: during training the decayed learning rate starts at the
    configured rate, decreases from epoch to epoch and stays positive: at
    the last epoch it is the configured rate divided by the number of
    epochs, not zero. *)
Theorem learning_rate_decay_stays_positive (learning_rate : R)
    (epoch num_epochs : nat) :
  0 < learning_rate -> (epoch < num_epochs)%nat ->
  decayed_learning_rate learning_rate 0 num_epochs = learning_rate /\
  0 < decayed_learning_rate learning_rate epoch num_epochs <= learning_rate /\
  decayed_learning_rate learning_rate (S epoch) num_epochs
  < decayed_learning_rate learning_rate epoch num_epochs /\
  decayed_learning_rate learning_rate (num_epochs - 1) num_epochs
  = learning_rate / INR num_epochs.
Proof.
  intros Hlr He. unfold decayed_learning_rate.
  assert (Hn : 0 < INR num_epochs) by (apply lt_0_INR; lia).
  assert (Hen : INR epoch < INR num_epochs) by now apply lt_INR.
  assert (He0 : 0 <= INR epoch) by apply pos_INR.
  assert (Hq : 0 <= INR epoch / INR num_epochs < 1).
  { split.
    - apply Rmult_le_pos; [assumption|]. now apply Rlt_le, Rinv_0_lt_compat.
    - apply Rmult_lt_reg_r with (INR num_epochs); [assumption|].
      unfold Rdiv. rewrite Rmult_assoc, Rinv_l by lra. lra. }
  repeat split.
  - cbn [INR]. unfold Rdiv. ring.
  - apply Rmult_lt_0_compat; lra.
  - rewrite <- (Rmult_1_r learning_rate) at 2.
    apply Rmult_le_compat_l; lra.
  - apply Rmult_lt_compat_l; [assumption|].
    rewrite S_INR. unfold Rdiv.
    assert (0 < / INR num_epochs) by now apply Rinv_0_lt_compat. nra.
  - rewrite minus_INR by lia. cbn [INR]. field. lra.
Qed.

Lemma learning_rate_decay_stays_positive_witness :
  0 < decayed_learning_rate 1 499 500 <= 1.
Proof.
  apply (learning_rate_decay_stays_positive 1 499 500); [lra | lia].
Defined.

(** X26: the test that decides whether validation images are rendered
    raises ZeroDivisionError exactly when fewer than ten epochs are
    configured; otherwise it holds at the first and at the last epoch. *)
Theorem render_images_condition (epoch num_epochs : nat) :
  (render_images epoch num_epochs = inl (OtherError "ZeroDivisionError")
   <-> (num_epochs < 10)%nat) /\
  ((10 <= num_epochs)%nat ->
   render_images 0 num_epochs = inr true /\
   render_images (num_epochs - 1) num_epochs = inr true).
Proof.
  unfold render_images. split.
  - destruct (Nat.eqb_spec (num_epochs / 10) 0) as [E|E].
    + split; [intros _|reflexivity].
      apply Nat.div_small_iff in E; lia.
    + split; [discriminate|]. intros H. exfalso. apply E.
      now apply Nat.div_small.
  - intros H.
    destruct (Nat.eqb_spec (num_epochs / 10) 0) as [E|E].
    + apply Nat.div_small_iff in E; lia.
    + split.
      * now rewrite Nat.Div0.mod_0_l.
      * now rewrite Nat.eqb_refl, orb_true_r.
Qed.

Lemma render_images_condition_witness :
  render_images 0 500 = inr true /\ render_images (500 - 1) 500 = inr true.
Proof.
  apply (proj2 (render_images_condition 0 500)). lia.
Defined.

(** ** Cropping a sequence (data_input.py) *)

Lemma py_slice_window {A : Type} (row : list A) (a n k : nat) (d : A) :
  (a + n <= length row)%nat ->
  length (py_slice row a (a + n)) = n /\
  ((k < n)%nat -> nth k (py_slice row a (a + n)) d = nth (a + k) row d).
Proof.
  intros H. split.
  - rewrite py_slice_length. lia.
  - intros Hk. apply nth_py_slice. lia.
Qed.

(** X27: without [pick_num], a sequence with [plen] recorded frames and
    [crop_len > 0] is cut to exactly [crop_len] consecutive frames.  When
    the sequence is longer than [crop_len] the window starts at the drawn
    index and always ends before the last recorded frame, which is never
    part of the crop; otherwise the window starts at frame 0. *)
Theorem sub_sample_pose_crop_window (crop_len : nat) (picks : list nat)
    (randint : nat -> nat -> nat) (pose hip_pose : tensor3)
    (plen max_plen : nat) :
  (forall low high, (low < high)%nat ->
     (low <= randint low high < high)%nat) ->
  (0 < crop_len <= max_plen)%nat -> (plen <= max_plen)%nat ->
  Forall (fun row => length row = max_plen) pose ->
  exists start : nat,
    (if (plen <=? crop_len)%nat then start = 0%nat
     else (start + crop_len < plen)%nat) /\
    Forall2 (fun row out =>
               length out = crop_len /\
               forall k, (k < crop_len)%nat ->
                 nth k out [] = nth (start + k) row [])
            pose
            (fst (sub_sample_pose 0 crop_len picks randint
                    pose hip_pose plen)).
Proof.
  intros Hrand Hc Hp Hrows. unfold sub_sample_pose.
  rewrite Nat.ltb_irrefl.
  destruct (Nat.ltb_spec 0 crop_len) as [_|]; [|lia].
  destruct (Nat.leb_spec plen crop_len) as [Hle|Hlt].
  - exists 0%nat. split; [reflexivity|]. cbn [fst].
    induction Hrows as [|row rows Hrow _ IH]; cbn [map]; constructor;
      [|exact IH].
    split.
    + rewrite length_firstn. lia.
    + intros k Hk. rewrite nth_firstn.
      destruct (Nat.ltb_spec k crop_len); [reflexivity | lia].
  - pose proof (Hrand 0%nat (plen - crop_len)%nat ltac:(lia)) as Hi.
    set (indx := randint 0%nat (plen - crop_len)%nat) in *.
    exists indx. split; [lia|]. cbn [fst].
    induction Hrows as [|row rows Hrow _ IH]; cbn [map]; constructor;
      [|exact IH].
    destruct (py_slice_window row indx crop_len 0 ([] : tensor1)
                ltac:(lia)) as [Hl _].
    split; [exact Hl|].
    intros k Hk. apply nth_py_slice. lia.
Qed.

Lemma sub_sample_pose_crop_window_witness :
  exists start : nat,
    (if (4 <=? 2)%nat then start = 0%nat else (start + 2 < 4)%nat) /\
    Forall2 (fun row out =>
               length out = 2%nat /\
               forall k, (k < 2)%nat ->
                 nth k out [] = nth (start + k) row [])
            [[[1]; [2]; [3]; [4]; [0]]]
            (fst (sub_sample_pose 0 2 [] (fun low _ => low)
                    [[[1]; [2]; [3]; [4]; [0]]] [] 4)).
Proof.
  apply (sub_sample_pose_crop_window 2 [] (fun low _ => low)
           [[[1]; [2]; [3]; [4]; [0]]] [] 4 5).
  - intros low high H. lia.
  - lia.
  - lia.
  - repeat constructor.
Defined.

(** ** Re-indexing the Human36 joints (config.py) *)

Lemma list_index_spec (l : list nat) (x : nat) :
  (existsb (Nat.eqb x) l = true ->
   exists i, list_index l x = inr i /\ (i < length l)%nat /\
             nth i l 0%nat = x) /\
  (existsb (Nat.eqb x) l = false ->
   exists msg, list_index l x = inl (ValueError msg)).
Proof.
  induction l as [|y l [IHt IHf]]; cbn [existsb list_index].
  - split; [discriminate|]. intros _. now eexists.
  - rewrite (Nat.eqb_sym x y).
    destruct (Nat.eqb_spec y x) as [->|Hne]; cbn [orb].
    + split; [|discriminate]. intros _. exists 0%nat. cbn. repeat split. lia.
    + split.
      * intros H. destruct (IHt H) as [i [-> [Hi Hn]]].
        exists (S i). cbn. repeat split; [lia | exact Hn].
      * intros H. destruct (IHf H) as [msg ->]. now exists msg.
Qed.

Lemma index_joints_spec (used_joints js : list nat) :
  (forallb (fun j => existsb (Nat.eqb j) used_joints) js = true ->
   exists idx, index_joints used_joints js = inr idx /\
     map (fun i => nth i used_joints 0%nat) idx = js /\
     Forall (fun i => (i < length used_joints)%nat) idx) /\
  (forallb (fun j => existsb (Nat.eqb j) used_joints) js = false ->
   exists msg, index_joints used_joints js = inl (ValueError msg)).
Proof.
  induction js as [|j js [IHt IHf]]; cbn [forallb index_joints].
  - split; [|discriminate]. intros _. exists []. repeat split. constructor.
  - destruct (list_index_spec used_joints j) as [Ht Hf].
    destruct (existsb (Nat.eqb j) used_joints); cbn [andb].
    + destruct (Ht eq_refl) as [i [-> [Hi Hn]]]. split.
      * intros H. destruct (IHt H) as [idx [-> [Hm Hall]]].
        exists (i :: idx). cbn [map]. rewrite Hn, Hm.
        repeat split. now constructor.
      * intros H. destruct (IHf H) as [msg ->]. now exists msg.
    + destruct (Hf eq_refl) as [msg ->]. split; [discriminate|].
      intros _. now exists msg.
Qed.

(** X28: the re-indexing loop of [get_config] succeeds exactly when every
    joint of every body member occurs in [used_joints], and raises
    ValueError otherwise.  When it succeeds it keeps the keys and the
    sides, and every new joint is a valid position in [used_joints] that
    holds the old joint. *)
Theorem reindex_body_members_spec (used_joints : list nat)
    (body_members : list (string * body_member)) :
  (all_joints_used used_joints body_members = true ->
   exists new_body_members,
     reindex_body_members used_joints body_members = inr new_body_members /\
     Forall2 (fun old new =>
                fst new = fst old /\
                side (snd new) = side (snd old) /\
                map (fun i => nth i used_joints 0%nat) (joints (snd new))
                = joints (snd old) /\
                Forall (fun i => (i < length used_joints)%nat)
                       (joints (snd new)))
             body_members new_body_members) /\
  (all_joints_used used_joints body_members = false ->
   exists msg,
     reindex_body_members used_joints body_members = inl (ValueError msg)).
Proof.
  unfold all_joints_used.
  induction body_members as [|[key value] rest [IHt IHf]];
    cbn [forallb reindex_body_members snd].
  - split; [|discriminate]. intros _. exists []. split; [reflexivity|].
    constructor.
  - destruct (index_joints_spec used_joints (joints value)) as [Ht Hf].
    destruct (forallb (fun j => existsb (Nat.eqb j) used_joints)
                (joints value)); cbn [andb].
    + destruct (Ht eq_refl) as [idx [-> [Hm Hall]]]. split.
      * intros H. destruct (IHt H) as [rest' [-> HF]].
        eexists. split; [reflexivity|]. constructor; [|exact HF].
        cbn. repeat split; assumption.
      * intros H. destruct (IHf H) as [msg ->]. now exists msg.
    + destruct (Hf eq_refl) as [msg ->]. split; [discriminate|].
      intros _. now exists msg.
Qed.

Lemma reindex_body_members_spec_witness :
  exists new_body_members,
    reindex_body_members human36_used_joints human36_body_members
    = inr new_body_members /\
    Forall2 (fun old new =>
               fst new = fst old /\
               side (snd new) = side (snd old) /\
               map (fun i => nth i human36_used_joints 0%nat)
                   (joints (snd new))
               = joints (snd old) /\
               Forall (fun i => (i < length human36_used_joints)%nat)
                      (joints (snd new)))
            human36_body_members new_body_members.
Proof.
  apply (proj1 (reindex_body_members_spec human36_used_joints
                  human36_body_members)).
  reflexivity.
Defined.
